(** * Jensen-Shannon divergence: the functional kernel and the stateful metric

    A shallow embedding of
      - [src/torchmetrics/functional/regression/js_divergence.py]
        ([_jsd_update], [_jsd_compute], [js_divergence]) and
      - [src/torchmetrics/regression/js_divergence.py]
        (class [JSDivergence]: [__init__], [update], [compute]).

    Tensor entries are modelled in exact arithmetic: an entry is a real
    number or one of the three IEEE special values (+inf, -inf, NaN), and
    the special values are produced and propagated as IEEE 754 does it
    (division by zero, logarithm of zero or of a negative number,
    inf - inf, 0 * inf).  Rounding, overflow, underflow and the sign of
    zero are outside the model. *)

From Stdlib Require Import Reals Lra Lia String List ZArith Bool.
From Stdlib Require Import DecimalString.
Import ListNotations.

Open Scope R_scope.

(** ** Tensor entries *)

Module Num.

Inductive num : Type :=
| Fin (r : R)
| PInf
| NInf
| NaN.

Definition is_finite (a : num) : Prop :=
  match a with Fin _ => True | _ => False end.

Definition is_nan (a : num) : Prop :=
  match a with NaN => True | _ => False end.

(** [a + b]; inf + (-inf) is NaN. *)
Definition add (a b : num) : num :=
  match a, b with
  | NaN, _ | _, NaN => NaN
  | Fin x, Fin y => Fin (x + y)
  | PInf, NInf | NInf, PInf => NaN
  | PInf, _ | _, PInf => PInf
  | NInf, _ | _, NInf => NInf
  end.

Definition neg (a : num) : num :=
  match a with
  | Fin x => Fin (- x)
  | PInf => NInf
  | NInf => PInf
  | NaN => NaN
  end.

(** [a - b]; inf - inf is NaN. *)
Definition sub (a b : num) : num :=
  match a, b with
  | Fin x, Fin y => Fin (x - y)
  | _, _ => add a (neg b)
  end.

(** The infinity that has the sign of [x]; NaN when [x] is zero. *)
Definition signed_inf (x : R) : num :=
  if Rlt_dec 0 x then PInf else if Rlt_dec x 0 then NInf else NaN.

(** [a * b]; 0 * inf is NaN. *)
Definition mul (a b : num) : num :=
  match a, b with
  | NaN, _ | _, NaN => NaN
  | Fin x, Fin y => Fin (x * y)
  | Fin x, PInf | PInf, Fin x => signed_inf x
  | Fin x, NInf | NInf, Fin x => signed_inf (- x)
  | PInf, PInf | NInf, NInf => PInf
  | PInf, NInf | NInf, PInf => NInf
  end.

(** [a / b]; x / 0 is an infinity with the sign of [x], 0 / 0 and
    inf / inf are NaN, x / inf is 0. *)
Definition div (a b : num) : num :=
  match a, b with
  | NaN, _ | _, NaN => NaN
  | Fin x, Fin y => if Req_dec_T y 0 then signed_inf x else Fin (x / y)
  | Fin _, PInf | Fin _, NInf => Fin 0
  | PInf, Fin y => if Rlt_dec y 0 then NInf else PInf
  | NInf, Fin y => if Rlt_dec y 0 then PInf else NInf
  | _, _ => NaN
  end.

Definition exp (a : num) : num :=
  match a with
  | Fin x => Fin (Rtrigo_def.exp x)
  | PInf => PInf
  | NInf => Fin 0
  | NaN => NaN
  end.

(** Natural logarithm; log 0 is -inf, log of a negative number is NaN. *)
Definition log (a : num) : num :=
  match a with
  | Fin x => if Rlt_dec 0 x then Fin (ln x)
             else if Req_dec_T x 0 then NInf else NaN
  | PInf => PInf
  | NInf | NaN => NaN
  end.

(** The comparison [a == 0]. *)
Definition eq_zero (a : num) : bool :=
  match a with
  | Fin x => if Req_dec_T x 0 then true else false
  | _ => false
  end.

(** A Python [int] converted for an operation with a float tensor. *)
Definition of_Z (z : Z) : num := Fin (IZR z).

(** [torch.sum] of a sequence of entries; the empty sum is 0. *)
Definition sum (l : list num) : num := fold_right add (Fin 0) l.

End Num.

Import Num.

Arguments Num.add : simpl never.
Arguments Num.sub : simpl never.
Arguments Num.mul : simpl never.
Arguments Num.div : simpl never.
Arguments Num.exp : simpl never.
Arguments Num.log : simpl never.

(** ** Tensors: a shape and the entries in row-major order *)

Record Tensor : Type := mkTensor {
  shape : list nat;
  data : list num
}.

Definition numel_of (s : list nat) : nat := fold_right Nat.mul 1%nat s.

(** A tensor the runtime can hold: as many entries as the shape says, every
    dimension a signed 64-bit size. *)
Definition wf (t : Tensor) : Prop :=
  length (data t) = numel_of (shape t) /\
  Forall (fun n => (Z.of_nat n < 2 ^ 63)%Z) (shape t).

Definition ndim (t : Tensor) : nat := length (shape t).

Definition zipWith {A B C : Type} (f : A -> B -> C)
  (a : list A) (b : list B) : list C :=
  map (fun xy => f (fst xy) (snd xy)) (combine a b).

(** Elementwise operation with a Python scalar, and [t.exp()], [torch.log]. *)
Definition tmap (f : num -> num) (t : Tensor) : Tensor :=
  mkTensor (shape t) (map f (data t)).

(** Elementwise operation on two tensors of the same shape. *)
Definition tzip (f : num -> num -> num) (a b : Tensor) : Tensor :=
  mkTensor (shape a) (zipWith f (data a) (data b)).

(** [n] consecutive blocks of [d] entries. *)
Fixpoint chunks (n d : nat) (l : list num) : list (list num) :=
  match n with
  | O => []
  | S n' => firstn d l :: chunks n' d (skipn d l)
  end.

(** The slices of [t] along its last dimension. *)
Definition rows (t : Tensor) : list (list num) :=
  chunks (numel_of (removelast (shape t))) (last (shape t) 1%nat) (data t).

(** [t.sum(dim=-1, keepdim=...)]. *)
Definition sum_last (keepdim : bool) (t : Tensor) : Tensor :=
  mkTensor (removelast (shape t) ++ (if keepdim then [1%nat] else []))
           (map Num.sum (rows t)).

(** [t / s] where [s] has size 1 in the last dimension and is broadcast
    along it. *)
Definition div_bcast_last (t s : Tensor) : Tensor :=
  mkTensor (shape t)
    (concat (zipWith (fun row x => map (fun y => Num.div y x) row)
                     (rows t) (data s))).

(** [t.sum()]: all entries, a 0-dimensional tensor. *)
Definition tsum (t : Tensor) : Tensor := mkTensor [] [Num.sum (data t)].

(** [t / total] for an integer [total]. *)
Definition tdiv_int (t : Tensor) (total : Z) : Tensor :=
  tmap (fun x => Num.div x (of_Z total)) t.

Definition texp : Tensor -> Tensor := tmap Num.exp.
Definition tlog : Tensor -> Tensor := tmap Num.log.
Definition tscale (c : R) : Tensor -> Tensor := tmap (Num.mul (Fin c)).
Definition tadd : Tensor -> Tensor -> Tensor := tzip Num.add.
Definition tsub : Tensor -> Tensor -> Tensor := tzip Num.sub.
Definition tmul : Tensor -> Tensor -> Tensor := tzip Num.mul.
Definition tdiv : Tensor -> Tensor -> Tensor := tzip Num.div.

(** ** Errors *)

Inductive Error : Type :=
| RuntimeError_shape (sp sq : list nat)
| ValueError (msg : string)
| TypeError (msg : string)
| AttributeError (msg : string).

Definition Result (A : Type) : Type := (Error + A)%type.

Definition ret {A : Type} (a : A) : Result A := inr a.
Definition raise {A : Type} (e : Error) : Result A := inl e.
Definition bind {A B : Type} (m : Result A) (k : A -> Result B) : Result B :=
  match m with
  | inl e => inl e
  | inr a => k a
  end.

Notation "x <- m ;; k" := (bind m (fun x => k))
  (at level 61, m at next level, right associativity).

Definition str_of_nat (n : nat) : string :=
  NilEmpty.string_of_uint (Nat.to_uint n).

(** ** Collaborators that live outside the two source files *)

(** Modelled from the spec: [torchmetrics.utilities.checks._check_same_shape]
    is not among the sources.  The shape-check collaborator "given two
    arrays, signals a descriptive error if shapes differ"; the error is the
    ShapeMismatch condition and records both shapes. *)
Definition _check_same_shape (p q : Tensor) : Result unit :=
  if list_eq_dec Nat.eq_dec (shape p) (shape q) then ret tt
  else raise (RuntimeError_shape (shape p) (shape q)).

(** Modelled from the spec: [torchmetrics.utilities.compute._safe_xlogy] is
    not among the sources.  The safe-xlogy collaborator "given x, y arrays,
    returns elementwise x==0 ? 0 : x*ln(y)". *)
Definition safe_xlogy_elem (x y : num) : num :=
  if eq_zero x then Fin 0 else Num.mul x (Num.log y).

Definition _safe_xlogy (x y : Tensor) : Tensor := tzip safe_xlogy_elem x y.

(** Modelled from the spec: [torchmetrics.utilities.data.dim_zero_cat] is not
    among the sources.  It "concatenates the stored sequence of per-sample
    vectors into one vector (in append order)". *)
Definition dim_zero_cat (l : list Tensor) : Tensor :=
  mkTensor [fold_right Nat.add 0%nat (map (fun t => hd 0%nat (shape t)) l)]
           (concat (map data l)).

(** ** The functional kernel *)

Definition rank_message (p q : Tensor) : string :=
  ("Expected both p and q distributions to be 2D but got "
     ++ str_of_nat (ndim p) ++ " and " ++ str_of_nat (ndim q)
     ++ " respectively")%string.

Definition _jsd_update (p q : Tensor) (log_prob : bool)
  : Result (Tensor * nat) :=
  _ <- _check_same_shape p q ;;
  if negb (ndim p =? 2)%nat || negb (ndim q =? 2)%nat then
    raise (ValueError (rank_message p q))
  else
    let total := hd 0%nat (shape p) in
    let measures :=
      if log_prob then
        let p_prob := texp p in
        let q_prob := texp q in
        let m := tlog (tscale 0.5 (tadd p_prob q_prob)) in
        let measure1 := sum_last false (tmul p_prob (tsub p m)) in
        let measure2 := sum_last false (tmul q_prob (tsub q m)) in
        tscale 0.5 (tadd measure1 measure2)
      else
        let p := div_bcast_last p (sum_last true p) in
        let q := div_bcast_last q (sum_last true q) in
        let m := tscale 0.5 (tadd p q) in
        let measure1 := sum_last false (_safe_xlogy p (tdiv p m)) in
        let measure2 := sum_last false (_safe_xlogy q (tdiv q m)) in
        tscale 0.5 (tadd measure1 measure2)
    in
    ret (measures, total).

Arguments _jsd_update : simpl never.

(** [reduction] is a Python string or [None]. *)
Definition reduction_is (reduction : option string) (s : string) : bool :=
  match reduction with
  | Some r => String.eqb r s
  | None => false
  end.

Definition reduction_is_None (reduction : option string) : bool :=
  match reduction with
  | Some _ => false
  | None => true
  end.

Definition _jsd_compute (measures : Tensor) (total : Z)
  (reduction : option string) : Tensor :=
  if reduction_is reduction "sum" then tsum measures
  else if reduction_is reduction "mean" then tdiv_int (tsum measures) total
  else if reduction_is_None reduction || reduction_is reduction "none"
       then measures
  else tdiv_int measures total.

Definition js_divergence (p q : Tensor) (log_prob : bool)
  (reduction : option string) : Result Tensor :=
  mt <- _jsd_update p q log_prob ;;
  ret (_jsd_compute (fst mt) (Z.of_nat (snd mt)) reduction).

(** ** The stateful metric *)

(** Python values that can arrive as the constructor's [log_prob]. *)
Inductive PyVal : Type :=
| PyBool (b : bool)
| PyInt (z : Z)
| PyStr (s : string)
| PyNone.

Definition py_repr (v : PyVal) : string :=
  match v with
  | PyBool true => "True"
  | PyBool false => "False"
  | PyInt z =>
      match z with
      | Zneg _ => ("-" ++ str_of_nat (Z.abs_nat z))%string
      | _ => str_of_nat (Z.abs_nat z)
      end
  | PyStr s => s
  | PyNone => "None"
  end.

(** The [measures] state: [torch.tensor(0.0)] updated in place for "mean" and
    "sum", a Python list of tensors otherwise. *)
Inductive MeasuresState : Type :=
| Aggregated (m : Tensor)
| PerSample (l : list Tensor).

(** The [total] state is an int64 tensor; its additions wrap around. *)
Definition wrap64 (z : Z) : Z := ((z + 2 ^ 63) mod 2 ^ 64 - 2 ^ 63)%Z.

Module JSDivergence.

Record t : Type := mk {
  log_prob : bool;
  reduction : option string;
  measures : MeasuresState;
  total : Z
}.

Definition allowed_reduction : list (option string) :=
  [Some "mean"; Some "sum"; Some "none"; None]%string.

Definition reduction_eqb (a b : option string) : bool :=
  match a, b with
  | Some x, Some y => String.eqb x y
  | None, None => true
  | _, _ => false
  end.

(** Python's [x in l]. *)
Definition py_in (x : option string) (l : list (option string)) : bool :=
  existsb (reduction_eqb x) l.

Definition repr_reduction (r : option string) : string :=
  match r with
  | Some s => s
  | None => "None"
  end.

Definition __init__ (log_prob : PyVal) (reduction : option string)
  : Result t :=
  match log_prob with
  | PyBool b =>
      if negb (py_in reduction allowed_reduction) then
        raise (ValueError
          ("Expected argument `reduction` to be one of "
             ++ "['mean', 'sum', 'none', None] but got "
             ++ repr_reduction reduction)%string)
      else if py_in reduction [Some "mean"; Some "sum"]%string then
        ret (mk b reduction (Aggregated (mkTensor [] [Fin 0])) 0%Z)
      else
        ret (mk b reduction (PerSample []) 0%Z)
  | v =>
      raise (TypeError
        ("Expected argument `log_prob` to be bool but got "
           ++ py_repr v)%string)
  end.

(** The state is a tensor or a list according to the reduction fixed by the
    constructor; the arms where the two disagree are what Python would do
    there and are never reached from a constructed metric. *)
Definition update (self : t) (p q : Tensor) : Result t :=
  mt <- _jsd_update p q (log_prob self) ;;
  let '(measures', total') := mt in
  if reduction_is_None (reduction self)
     || reduction_is (reduction self) "none" then
    match measures self with
    | PerSample l =>
        ret (mk (log_prob self) (reduction self)
                (PerSample (l ++ [measures'])) (total self))
    | Aggregated _ =>
        raise (AttributeError "'Tensor' object has no attribute 'append'")
    end
  else
    match measures self with
    | Aggregated m =>
        ret (mk (log_prob self) (reduction self)
                (Aggregated (tadd m (tsum measures')))
                (wrap64 (total self + Z.of_nat total')))
    | PerSample _ =>
        raise (TypeError "iteration over a 0-d tensor")
    end.

Definition compute (self : t) : Result Tensor :=
  if py_in (reduction self) [Some "none"; None]%string then
    match measures self with
    | PerSample l =>
        ret (_jsd_compute (dim_zero_cat l) (total self) (reduction self))
    | Aggregated m =>
        ret (_jsd_compute m (total self) (reduction self))
    end
  else
    match measures self with
    | Aggregated m =>
        ret (_jsd_compute m (total self) (reduction self))
    | PerSample _ =>
        raise (AttributeError "'list' object has no attribute 'sum'")
    end.

End JSDivergence.

(** ** The kernel's algorithm as the specification words it

    Section 4.1 of the specification states the per-sample measure row by
    row.  These definitions follow its sentences, not the code; they are
    compared with [_jsd_update] below. *)

Module Spec.

(** "safe_xlogy(x, y) returns 0 at positions where x == 0 and x*ln(y)
    otherwise". *)
Definition safe_xlogy (x y : list num) : list num :=
  zipWith (fun a b => if eq_zero a then Fin 0 else Num.mul a (Num.log b)) x y.

(** "Let P = exp(p), Q = exp(q), M = log(0.5*(P+Q)).  Per-sample measure =
    0.5 * [ sum_d P*(p-M) + sum_d Q*(q-M) ]". *)
Definition measure_log (p q : list num) : num :=
  let P := map Num.exp p in
  let Q := map Num.exp q in
  let M := map (fun s => Num.log (Num.mul (Fin 0.5) s)) (zipWith Num.add P Q) in
  Num.mul (Fin 0.5)
    (Num.add (Num.sum (zipWith Num.mul P (zipWith Num.sub p M)))
             (Num.sum (zipWith Num.mul Q (zipWith Num.sub q M)))).

(** "renormalize each row to sum to 1 (divide by row sum)". *)
Definition normalize (row : list num) : list num :=
  map (fun x => Num.div x (Num.sum row)) row.

(** "Let M = 0.5*(p+q).  Per-sample measure =
    0.5 * [ sum_d safe_xlogy(p, p/M) + sum_d safe_xlogy(q, q/M) ]". *)
Definition measure_prob (p q : list num) : num :=
  let p := normalize p in
  let q := normalize q in
  let M := map (Num.mul (Fin 0.5)) (zipWith Num.add p q) in
  Num.mul (Fin 0.5)
    (Num.add (Num.sum (safe_xlogy p (zipWith Num.div p M)))
             (Num.sum (safe_xlogy q (zipWith Num.div q M)))).

Definition per_sample (log_prob : bool) : list num -> list num -> num :=
  if log_prob then measure_log else measure_prob.

(** "Return the length-N vector of per-sample measures and the integer N". *)
Definition update (p q : Tensor) (log_prob : bool) : Tensor * nat :=
  let N := hd 0%nat (shape p) in
  (mkTensor [N] (zipWith (per_sample log_prob) (rows p) (rows q)), N).

End Spec.

Arguments Spec.measure_log : simpl never.
Arguments Spec.measure_prob : simpl never.

(** ** Runs of the metric *)

(** The kind of the [measures] state matches the reduction chosen at
    construction. *)
Definition state_ok (s : JSDivergence.t) : Prop :=
  match JSDivergence.measures s with
  | Aggregated _ =>
      JSDivergence.reduction s = Some "mean"%string
      \/ JSDivergence.reduction s = Some "sum"%string
  | PerSample _ =>
      JSDivergence.reduction s = Some "none"%string
      \/ JSDivergence.reduction s = None
  end.


Definition two_updates (lp : bool) (r : option string)
  (p1 q1 p2 q2 : Tensor) : Result Tensor :=
  s0 <- JSDivergence.__init__ (PyBool lp) r ;;
  s1 <- JSDivergence.update s0 p1 q1 ;;
  s2 <- JSDivergence.update s1 p2 q2 ;;
  JSDivergence.compute s2.

(** ** Valid inputs and the range of a divergence *)

Definition nonneg (x : num) : Prop :=
  match x with Fin r => 0 <= r | _ => False end.

Definition positive (x : num) : Prop :=
  match x with Fin r => 0 < r | _ => False end.


(** A row of probabilities that can be normalized: finite nonnegative
    entries with a positive sum. *)
Definition prob_row (row : list num) : Prop :=
  Forall nonneg row /\ positive (Num.sum row).

(** A row of finite log-probabilities of a normalized distribution. *)
Definition logprob_row (row : list num) : Prop :=
  Forall is_finite row /\ Num.sum (map Num.exp row) = Fin 1.

Definition valid_rows (log_prob : bool) (t : Tensor) : Prop :=
  Forall (if log_prob then logprob_row else prob_row) (rows t).

(** ** The per-sample measure on finite entries, over the reals

    What [Spec.measure_prob] and [Spec.measure_log] compute when no special
    value arises; used to bound and to evaluate the kernel. *)

Module RealJSD.

Definition Rsum (l : list R) : R := fold_right Rplus 0 l.

Definition xlogy (x y : R) : R := if Req_dec_T x 0 then 0 else x * ln y.

Definition normalize (a : list R) : list R := map (fun x => x / Rsum a) a.

Definition mix (a b : list R) : list R :=
  map (Rmult 0.5) (zipWith Rplus a b).

Definition kl (a m : list R) : R :=
  Rsum (zipWith (fun x mm => xlogy x (x / mm)) a m).

(** A term [xlogy x (x / m)] needs [m] positive only where [x] is not
    zero. *)
Definition guarded (xm : R * R) : Prop :=
  fst xm <> 0 -> 0 < fst xm /\ 0 < snd xm.

Definition jsd_prob (a b : list R) : R :=
  let a' := normalize a in
  let b' := normalize b in
  0.5 * (kl a' (mix a' b') + kl b' (mix a' b')).




End RealJSD.

(** ** Rescaling one row *)



(** ** Error messages *)

(** [sub] occurs in [s]. *)
Fixpoint contains (sub s : string) : bool :=
  if String.prefix sub s then true
  else match s with
       | EmptyString => false
       | String _ s' => contains sub s'
       end.

(** ** Example batches *)

Definition zeros (s : list nat) : Tensor :=
  mkTensor s (repeat (Fin 0) (numel_of s)).

(** An input of shape (10, 20, 5) and one-dimensional inputs of lengths 100
    and 50, as in the tests of the error cases. *)
Definition t_10_20_5 : Tensor := zeros [10; 20; 5]%nat.
Definition t_100 : Tensor := zeros [100]%nat.
Definition t_50 : Tensor := zeros [50]%nat.

(** One sample with disjoint supports, and two samples with identical
    rows. *)
Definition p_disjoint : Tensor := mkTensor [1; 2]%nat [Fin 1; Fin 0].
Definition q_disjoint : Tensor := mkTensor [1; 2]%nat [Fin 0; Fin 1].
Definition p_same : Tensor :=
  mkTensor [2; 2]%nat [Fin 1; Fin 0; Fin 1; Fin 0].

(** The batch on which a plain KL divergence is infinite: [q] has an exact
    zero where [p] has mass. *)
Definition p_mass : Tensor := mkTensor [1; 3]%nat [Fin 0.3; Fin 0.3; Fin 0.4].
Definition q_zero : Tensor := mkTensor [1; 3]%nat [Fin 0.5; Fin 0.5; Fin 0].

(** The batch of the docstring example. *)
Definition p_doc : Tensor := mkTensor [1; 3]%nat [Fin 0.36; Fin 0.48; Fin 0.16].
Definition q_doc : Tensor :=
  mkTensor [1; 3]%nat [Fin (1 / 3); Fin (1 / 3); Fin (1 / 3)].


(** ** Numerics for the docstring example *)

(** [k] squarings of the fixed-point number [c / S], each rounded down. *)
Fixpoint iter_sq (S : Z) (k : nat) (c : Z) : Z :=
  match k with
  | O => c
  | Datatypes.S k' => iter_sq S k' (c * c / S)%Z
  end.

(** The fixed-point scale. *)
Definition SC : Z := (10 ^ 18)%Z.

(** 150 times the divergence of the docstring example is the logarithm of
    this rational number. *)
Definition doc_ratio : R :=
  (27 / 26) ^ 27 * (72 / 61) ^ 36 * (24 / 37) ^ 12
  * ((25 / 26) ^ 25 * (50 / 61) ^ 25 * (50 / 37) ^ 25).

From Stdlib Require Import Permutation.

(** ** Batches, concatenation and runs of any length *)

(** [torch.cat(ts, dim=0)] for a non-empty list of tensors that agree in
    every dimension but the first. *)
Definition tcat (ts : list Tensor) : Tensor :=
  mkTensor
    (fold_right Nat.add 0%nat (map (fun t => hd 0%nat (shape t)) ts)
       :: tl (shape (hd (mkTensor [] []) ts)))
    (concat (map data ts)).

(** A batch the kernel accepts: [p] and [q] of the same shape [N; d]. *)
Definition batch_ok (d : nat) (pq : Tensor * Tensor) : Prop :=
  exists N, shape (fst pq) = [N; d] /\ shape (snd pq) = [N; d]
            /\ wf (fst pq) /\ wf (snd pq).

Definition batch_rows (pq : Tensor * Tensor) : nat :=
  hd 0%nat (shape (fst pq)).

Definition rows_total (batches : list (Tensor * Tensor)) : nat :=
  fold_right Nat.add 0%nat (map batch_rows batches).

(** The per-sample measures of one batch, as a list. *)
Definition measures_of (lp : bool) (pq : Tensor * Tensor) : list num :=
  zipWith (Spec.per_sample lp) (rows (fst pq)) (rows (snd pq)).

(** [update] called on each batch in turn; the first error ends the run. *)
Fixpoint run_updates (s : JSDivergence.t) (batches : list (Tensor * Tensor))
  : Result JSDivergence.t :=
  match batches with
  | [] => ret s
  | pq :: rest =>
      s' <- JSDivergence.update s (fst pq) (snd pq) ;;
      run_updates s' rest
  end.

(** Construct, update with every batch, compute. *)
Definition run_metric (lp : bool) (r : option string)
  (batches : list (Tensor * Tensor)) : Result Tensor :=
  s0 <- JSDivergence.__init__ (PyBool lp) r ;;
  s <- run_updates s0 batches ;;
  JSDivergence.compute s.




(** Modelled from the spec: the merge of the states of two instances is done
    by the metric-lifecycle collaborator, which is not among the sources.
    It merges each state "per the declared merge_strategy"; the constructor
    declares [dist_reduce_fx="sum"] for the scalar [measures] and for
    [total], and [dist_reduce_fx="cat"] for the list [measures]. *)
Definition merge_states (a b : JSDivergence.t) : JSDivergence.t :=
  JSDivergence.mk (JSDivergence.log_prob a) (JSDivergence.reduction a)
    (match JSDivergence.measures a, JSDivergence.measures b with
     | Aggregated x, Aggregated y => Aggregated (tadd x y)
     | PerSample l1, PerSample l2 => PerSample (l1 ++ l2)
     | m, _ => m
     end)
    (wrap64 (JSDivergence.total a + JSDivergence.total b)).

(** Two instances with the same settings, each fed its own batches, merged
    and computed. *)
Definition run_merged (lp : bool) (r : option string)
  (b1 b2 : list (Tensor * Tensor)) : Result Tensor :=
  s0 <- JSDivergence.__init__ (PyBool lp) r ;;
  s1 <- run_updates s0 b1 ;;
  s2 <- run_updates s0 b2 ;;
  JSDivergence.compute (merge_states s1 s2).


(** ** Reordering samples and categories *)

(** The entries of [l] at the positions [idx], in that order. *)
Definition select {A : Type} (dflt : A) (idx : list nat) (l : list A)
  : list A :=
  map (fun j => nth j l dflt) idx.

(** [t[idx]]: the samples of a 2-D tensor in the order [idx]. *)
Definition permute_rows (idx : list nat) (t : Tensor) : Tensor :=
  mkTensor (shape t) (concat (select [] idx (rows t))).

(** [t[:, idx]]: the categories of a 2-D tensor in the order [idx]. *)
Definition permute_cols (idx : list nat) (t : Tensor) : Tensor :=
  mkTensor (shape t) (concat (map (select (Fin 0) idx) (rows t))).

(** The terms of the two sums of a per-sample measure, as functions of one
    position [(x, y)] of the two rows; [sa] and [sb] are the row sums of the
    probability path. *)
Definition log_term1 (xy : num * num) : num :=
  Num.mul (Num.exp (fst xy))
    (Num.sub (fst xy)
       (Num.log (Num.mul (Fin 0.5)
                   (Num.add (Num.exp (fst xy)) (Num.exp (snd xy)))))).

Definition log_term2 (xy : num * num) : num :=
  Num.mul (Num.exp (snd xy))
    (Num.sub (snd xy)
       (Num.log (Num.mul (Fin 0.5)
                   (Num.add (Num.exp (fst xy)) (Num.exp (snd xy)))))).

Definition prob_term1 (sa sb : num) (xy : num * num) : num :=
  let x := Num.div (fst xy) sa in
  let y := Num.div (snd xy) sb in
  safe_xlogy_elem x (Num.div x (Num.mul (Fin 0.5) (Num.add x y))).

Definition prob_term2 (sa sb : num) (xy : num * num) : num :=
  let x := Num.div (fst xy) sa in
  let y := Num.div (snd xy) sb in
  safe_xlogy_elem y (Num.div y (Num.mul (Fin 0.5) (Num.add x y))).

(** [torch.cat([t, zeros(N, 1)], dim=1)]: one more category, of mass 0 in
    every sample. *)
Definition pad_zero_col (t : Tensor) : Tensor :=
  mkTensor [hd 0%nat (shape t); S (last (shape t) 0%nat)]
           (concat (map (fun r => r ++ [Fin 0]) (rows t))).

(** ** Lists cut into rows *)

Section Chunks.

Lemma zipWith_cons {A B C} (f : A -> B -> C) x xs y ys :
  zipWith f (x :: xs) (y :: ys) = f x y :: zipWith f xs ys.
Proof. reflexivity. Qed.

Lemma zipWith_length {A B C} (f : A -> B -> C) a b :
  length (zipWith f a b) = Nat.min (length a) (length b).
Proof. unfold zipWith. now rewrite length_map, length_combine. Qed.

Lemma zipWith_firstn {A B C} (f : A -> B -> C) n a b :
  firstn n (zipWith f a b) = zipWith f (firstn n a) (firstn n b).
Proof.
  unfold zipWith. now rewrite firstn_map, combine_firstn.
Qed.

Lemma skipn_combine' {A B} n (a : list A) (b : list B) :
  skipn n (combine a b) = combine (skipn n a) (skipn n b).
Proof.
  revert a b; induction n as [|n IH]; intros a b; [reflexivity|].
  destruct a as [|x a]; [reflexivity|].
  destruct b as [|y b]; simpl.
  - now destruct (skipn n a).
  - apply IH.
Qed.

Lemma zipWith_skipn {A B C} (f : A -> B -> C) n a b :
  skipn n (zipWith f a b) = zipWith f (skipn n a) (skipn n b).
Proof.
  unfold zipWith. now rewrite skipn_map, skipn_combine'.
Qed.

Lemma zipWith_map_diag {A B C} (f : A -> B -> C) (g : A -> B) l :
  zipWith f l (map g l) = map (fun x => f x (g x)) l.
Proof.
  induction l as [|x l IH]; [reflexivity|].
  simpl map. rewrite zipWith_cons. now f_equal.
Qed.

Lemma zipWith_swap {A C} (f g : A -> A -> C) a b :
  (forall x y, f x y = g y x) -> zipWith f a b = zipWith g b a.
Proof.
  intros H. revert b; induction a as [|x a IH]; intros [|y b]; try reflexivity.
  rewrite !zipWith_cons, H. f_equal. apply IH.
Qed.

Lemma chunks_length n d l : length (chunks n d l) = n.
Proof. revert l; induction n; intros l; simpl; auto. Qed.

Lemma chunks_map f n d l :
  chunks n d (map f l) = map (map f) (chunks n d l).
Proof.
  revert l; induction n as [|n IH]; intros l; [reflexivity|].
  simpl. now rewrite firstn_map, skipn_map, IH.
Qed.

Lemma chunks_zipWith f n d a b :
  chunks n d (zipWith f a b) = zipWith (zipWith f) (chunks n d a) (chunks n d b).
Proof.
  revert a b; induction n as [|n IH]; intros a b; [reflexivity|].
  simpl. now rewrite zipWith_cons, zipWith_firstn, zipWith_skipn, IH.
Qed.

Lemma chunks_row_length n d l :
  length l = (n * d)%nat -> Forall (fun r => length r = d) (chunks n d l).
Proof.
  revert l; induction n as [|n IH]; intros l Hl; simpl; constructor.
  - rewrite length_firstn. simpl in Hl. lia.
  - apply IH. rewrite length_skipn. simpl in Hl. lia.
Qed.

Lemma chunks_concat n d rs :
  length rs = n -> Forall (fun r => length r = d) rs ->
  chunks n d (concat rs) = rs.
Proof.
  revert n; induction rs as [|r rs IH]; intros n Hn Hall; subst n.
  - reflexivity.
  - inversion Hall as [|? ? Hr Hrs]; subst. simpl.
    rewrite firstn_app, Nat.sub_diag, firstn_all. simpl. rewrite app_nil_r.
    rewrite skipn_app, Nat.sub_diag, skipn_all. simpl.
    f_equal. now apply IH.
Qed.

Lemma concat_chunks n d l :
  length l = (n * d)%nat -> concat (chunks n d l) = l.
Proof.
  revert l; induction n as [|n IH]; intros l Hl; simpl in *.
  - destruct l; [reflexivity | discriminate].
  - rewrite IH by (rewrite length_skipn; lia). apply firstn_skipn.
Qed.

End Chunks.

(** ** The kernel against the specification's algorithm *)

(** Well-formedness of a tensor given by its entries. *)
Ltac solve_wf :=
  split; [reflexivity | repeat constructor; now vm_compute].

Section Kernel.

Lemma rows_2d t N d : shape t = [N; d] -> rows t = chunks N d (data t).
Proof.
  intros H. unfold rows. rewrite H. simpl. now rewrite Nat.mul_1_r.
Qed.

Lemma wf_2d_length t N d :
  shape t = [N; d] -> wf t -> length (data t) = (N * d)%nat.
Proof.
  intros H [Hl _]. rewrite Hl, H. simpl. lia.
Qed.

Lemma rows_2d_length t N d :
  shape t = [N; d] -> length (rows t) = N.
Proof. intros H. rewrite (rows_2d _ _ _ H). apply chunks_length. Qed.

Lemma rows_2d_row_length t N d :
  shape t = [N; d] -> wf t -> Forall (fun r => length r = d) (rows t).
Proof.
  intros H Hwf. rewrite (rows_2d _ _ _ H).
  apply chunks_row_length. now apply wf_2d_length.
Qed.

(** Dividing every row by its own sum, as [p / p.sum(dim=-1, keepdim=True)]
    does, normalizes the rows one by one. *)
Lemma rows_div_bcast_last t N d :
  shape t = [N; d] -> wf t ->
  rows (div_bcast_last t (sum_last true t)) = map Spec.normalize (rows t).
Proof.
  intros H Hwf.
  assert (Hn : data (div_bcast_last t (sum_last true t))
               = concat (map Spec.normalize (rows t))).
  { unfold div_bcast_last, sum_last. simpl. now rewrite zipWith_map_diag. }
  rewrite (rows_2d _ N d) by (simpl; exact H).
  rewrite Hn. apply chunks_concat.
  - rewrite length_map. now apply rows_2d_length with d.
  - apply Forall_map. eapply Forall_impl; [|apply (rows_2d_row_length _ _ _ H Hwf)].
    intros r Hr. unfold Spec.normalize. now rewrite length_map.
Qed.

Lemma log_path_rows (rp rq : list (list num)) :
  map (Num.mul (Fin 0.5))
    (zipWith Num.add
       (map Num.sum
          (zipWith (zipWith Num.mul) (map (map Num.exp) rp)
             (zipWith (zipWith Num.sub) rp
                (map (map Num.log)
                   (map (map (Num.mul (Fin 0.5)))
                      (zipWith (zipWith Num.add) (map (map Num.exp) rp)
                         (map (map Num.exp) rq)))))))
       (map Num.sum
          (zipWith (zipWith Num.mul) (map (map Num.exp) rq)
             (zipWith (zipWith Num.sub) rq
                (map (map Num.log)
                   (map (map (Num.mul (Fin 0.5)))
                      (zipWith (zipWith Num.add) (map (map Num.exp) rp)
                         (map (map Num.exp) rq))))))))
  = zipWith Spec.measure_log rp rq.
Proof.
  revert rq; induction rp as [|a rp IH]; intros [|b rq]; try reflexivity.
  unfold zipWith in *. simpl. f_equal.
  - unfold Spec.measure_log, zipWith. now rewrite !map_map.
  - apply IH.
Qed.

Lemma prob_path_rows (rp rq : list (list num)) :
  map (Num.mul (Fin 0.5))
    (zipWith Num.add
       (map Num.sum
          (zipWith (zipWith safe_xlogy_elem) (map Spec.normalize rp)
             (zipWith (zipWith Num.div) (map Spec.normalize rp)
                (map (map (Num.mul (Fin 0.5)))
                   (zipWith (zipWith Num.add) (map Spec.normalize rp)
                      (map Spec.normalize rq))))))
       (map Num.sum
          (zipWith (zipWith safe_xlogy_elem) (map Spec.normalize rq)
             (zipWith (zipWith Num.div) (map Spec.normalize rq)
                (map (map (Num.mul (Fin 0.5)))
                   (zipWith (zipWith Num.add) (map Spec.normalize rp)
                      (map Spec.normalize rq)))))))
  = zipWith Spec.measure_prob rp rq.
Proof.
  revert rq; induction rp as [|a rp IH]; intros [|b rq]; try reflexivity.
  unfold zipWith in *. simpl. f_equal. apply IH.
Qed.

Lemma jsd_update_rows (p q : Tensor) (log_prob : bool) (N d : nat) :
  shape p = [N; d] -> shape q = [N; d] -> wf p -> wf q ->
  _jsd_update p q log_prob = inr (Spec.update p q log_prob).
Proof.
  intros Hp Hq Wp Wq.
  unfold _jsd_update, _check_same_shape, ndim. rewrite Hp, Hq.
  destruct (list_eq_dec Nat.eq_dec [N; d] [N; d]) as [_|ne]; [|contradiction].
  simpl bind. simpl length. simpl orb. cbv iota.
  unfold Spec.update. rewrite Hp. simpl hd.
  unfold ret. do 2 f_equal.
  destruct log_prob.
  - unfold tscale, tadd, tmul, tsub, texp, tlog, tmap, tzip, sum_last, rows.
    cbn [shape data]. rewrite Hp, Hq.
    cbn [removelast last numel_of fold_right app].
    rewrite !Nat.mul_1_r. f_equal.
    rewrite !chunks_zipWith, !chunks_map, !chunks_zipWith, !chunks_map.
    apply log_path_rows.
  - pose proof (rows_div_bcast_last p N d Hp Wp) as RP.
    pose proof (rows_div_bcast_last q N d Hq Wq) as RQ.
    set (p' := div_bcast_last p (sum_last true p)) in *.
    set (q' := div_bcast_last q (sum_last true q)) in *.
    assert (SP : shape p' = [N; d]) by exact Hp.
    assert (SQ : shape q' = [N; d]) by exact Hq.
    rewrite (rows_2d p' N d SP), (rows_2d p N d Hp) in RP.
    rewrite (rows_2d q' N d SQ), (rows_2d q N d Hq) in RQ.
    unfold tscale, tadd, tdiv, _safe_xlogy, tmap, tzip, sum_last, rows.
    cbn [shape data]. rewrite SP, SQ.
    cbn [removelast last numel_of fold_right app].
    rewrite !Nat.mul_1_r. f_equal.
    rewrite !chunks_zipWith, !chunks_map, !chunks_zipWith, RP, RQ.
    rewrite Hp, Hq. cbn [removelast last numel_of fold_right app].
    rewrite !Nat.mul_1_r.
    apply prob_path_rows.
Qed.

(** C1: on equal-shape 2-D tensors [_jsd_update] returns the pair the
    specification's algorithm describes: the vector of the [N] per-sample
    measures, each computed from the matching rows of [p] and [q] by the
    log-probability or the probability formula, and the row count [N]. *)
Theorem jsd_update_refines_spec (p q : Tensor) (log_prob : bool) (N d : nat) :
  shape p = [N; d] -> shape q = [N; d] -> wf p -> wf q ->
  _jsd_update p q log_prob
    = inr (mkTensor [N]
             (zipWith (if log_prob then Spec.measure_log
                       else Spec.measure_prob) (rows p) (rows q)), N)
  /\ length (zipWith (if log_prob then Spec.measure_log
                      else Spec.measure_prob) (rows p) (rows q)) = N
  /\ length (rows p) = N.
Proof.
  intros Hp Hq Wp Wq. split; [|split].
  - rewrite (jsd_update_rows p q log_prob N d Hp Hq Wp Wq).
    unfold Spec.update, Spec.per_sample. rewrite Hp. reflexivity.
  - rewrite zipWith_length.
    rewrite (rows_2d_length p N d Hp), (rows_2d_length q N d Hq). lia.
  - exact (rows_2d_length p N d Hp).
Qed.

Lemma jsd_update_refines_spec_witness :
  _jsd_update p_mass q_zero true
    = inr (mkTensor [1%nat]
             (zipWith Spec.measure_log (rows p_mass) (rows q_zero)), 1%nat)
  /\ length (zipWith Spec.measure_log (rows p_mass) (rows q_zero)) = 1%nat
  /\ length (rows p_mass) = 1%nat.
Proof.
  apply (jsd_update_refines_spec p_mass q_zero true 1 3);
    try reflexivity; solve_wf.
Defined.

End Kernel.

(** ** Reduction *)

Section Compute.

(** C3: [_jsd_compute] has exactly four behaviours.  "sum" returns the sum
    of all entries of [measures] (a 0-dimensional tensor), "mean" returns
    that sum divided by [total], "none" and [None] return [measures]
    unchanged, and every other value divides [measures] elementwise by
    [total]. *)
Theorem jsd_compute_four_behaviors (measures : Tensor) (total : Z) :
  _jsd_compute measures total (Some "sum"%string)
    = mkTensor [] [Num.sum (data measures)]
  /\ _jsd_compute measures total (Some "mean"%string)
    = mkTensor [] [Num.div (Num.sum (data measures)) (of_Z total)]
  /\ _jsd_compute measures total (Some "none"%string) = measures
  /\ _jsd_compute measures total None = measures
  /\ (forall s : string,
        s <> "sum"%string -> s <> "mean"%string -> s <> "none"%string ->
        _jsd_compute measures total (Some s)
          = mkTensor (shape measures)
              (map (fun x => Num.div x (of_Z total)) (data measures))).
Proof.
  split; [reflexivity|].
  split; [reflexivity|].
  split; [reflexivity|].
  split; [reflexivity|].
  intros s Hsum Hmean Hnone. unfold _jsd_compute, reduction_is.
  apply String.eqb_neq in Hsum, Hmean, Hnone.
  now rewrite Hsum, Hmean, Hnone.
Qed.

Lemma jsd_compute_four_behaviors_witness :
  _jsd_compute (mkTensor [2%nat] [Fin 1; Fin 3]) 2 (Some "max"%string)
  = mkTensor [2%nat] [Num.div (Fin 1) (of_Z 2); Num.div (Fin 3) (of_Z 2)].
Proof.
  apply (jsd_compute_four_behaviors (mkTensor [2%nat] [Fin 1; Fin 3]) 2);
    discriminate.
Defined.

End Compute.

(** ** Errors of the kernel *)

Section Errors.

Lemma prefix_nil s : String.prefix "" s = true.
Proof. now destruct s. Qed.

Lemma prefix_app_l a s t :
  String.prefix a s = true -> String.prefix a (s ++ t) = true.
Proof.
  revert s; induction a as [|c a IH]; intros s H; [apply prefix_nil|].
  destruct s as [|c' s]; [discriminate|]. simpl in *.
  destruct (Ascii.ascii_dec c c'); [now apply IH | discriminate].
Qed.

Lemma prefix_app_same a b c :
  String.prefix b c = true -> String.prefix (a ++ b) (a ++ c) = true.
Proof.
  intros H. induction a as [|x a IH]; [exact H|].
  simpl. now destruct (Ascii.ascii_dec x x).
Qed.

Lemma prefix_self_app a t : String.prefix a (a ++ t) = true.
Proof.
  induction a as [|x a IH]; [apply prefix_nil|].
  simpl. now destruct (Ascii.ascii_dec x x).
Qed.

Lemma contains_of_prefix a s : String.prefix a s = true -> contains a s = true.
Proof. intros H. destruct s; cbn [contains]; now rewrite H. Qed.

Lemma contains_app_l a s t : contains a s = true -> contains a (s ++ t) = true.
Proof.
  induction s as [|c s IH]; intros H.
  - cbn [contains] in H. destruct (String.prefix a "") eqn:E; [|discriminate].
    apply contains_of_prefix. now apply (prefix_app_l a "" t).
  - cbn [contains] in H. destruct (String.prefix a (String c s)) eqn:E.
    + apply contains_of_prefix. now apply (prefix_app_l a (String c s) t).
    + change (String c s ++ t)%string with (String c (s ++ t)).
      cbn [contains].
      destruct (String.prefix a (String c (s ++ t))); [reflexivity|].
      now apply IH.
Qed.

Lemma contains_app_r a s t : contains a t = true -> contains a (s ++ t) = true.
Proof.
  intros H. induction s as [|c s IH]; [exact H|].
  change (String c s ++ t)%string with (String c (s ++ t)).
  cbn [contains]. now destruct (String.prefix a (String c (s ++ t))).
Qed.

(** C4: a shape mismatch is reported first, whatever the ranks; with equal
    shapes, a rank other than 2 raises the ValueError whose message mentions
    "2D" and reports both ranks ("3 and 3" for two 3-dimensional inputs). *)
Theorem jsd_update_errors (p q : Tensor) (log_prob : bool) :
  (shape p <> shape q ->
     _jsd_update p q log_prob = inl (RuntimeError_shape (shape p) (shape q)))
  /\ (shape p = shape q -> ndim p <> 2%nat \/ ndim q <> 2%nat ->
     _jsd_update p q log_prob = inl (ValueError (rank_message p q))
     /\ contains "2D" (rank_message p q) = true
     /\ contains (str_of_nat (ndim p) ++ " and " ++ str_of_nat (ndim q))
                 (rank_message p q) = true)
  /\ (ndim p = 3%nat -> ndim q = 3%nat ->
     contains "3 and 3" (rank_message p q) = true)
  /\ _jsd_update t_10_20_5 t_10_20_5 log_prob
     = inl (ValueError "Expected both p and q distributions to be 2D but got 3 and 3 respectively")
  /\ _jsd_update t_100 t_50 log_prob
     = inl (RuntimeError_shape [100%nat] [50%nat]).
Proof.
  split; [|split; [|split; [|split]]].
  - intros Hne. unfold _jsd_update, _check_same_shape.
    now destruct (list_eq_dec Nat.eq_dec (shape p) (shape q)).
  - intros Heq Hrank. split; [|split].
    + unfold _jsd_update, _check_same_shape.
      destruct (list_eq_dec Nat.eq_dec (shape p) (shape q)); [|contradiction].
      simpl bind.
      destruct Hrank as [H|H]; apply Nat.eqb_neq in H; rewrite H;
        [reflexivity | now rewrite orb_true_r].
    + unfold rank_message.
      now apply (contains_app_l "2D"
        "Expected both p and q distributions to be 2D but got ").
    + unfold rank_message. apply contains_app_r. apply contains_of_prefix.
      apply prefix_app_same. apply (prefix_app_same " and ").
      apply prefix_self_app.
  - intros Hp Hq. unfold rank_message. rewrite Hp, Hq. reflexivity.
  - reflexivity.
  - reflexivity.
Qed.

Lemma jsd_update_errors_witness :
  _jsd_update (zeros [2; 3]%nat) (zeros [3; 2]%nat) false
    = inl (RuntimeError_shape [2; 3]%nat [3; 2]%nat)
  /\ _jsd_update (zeros [4]%nat) (zeros [4]%nat) false
    = inl (ValueError (rank_message (zeros [4]%nat) (zeros [4]%nat)))
  /\ contains "3 and 3" (rank_message t_10_20_5 t_10_20_5) = true.
Proof.
  split; [|split].
  - apply (jsd_update_errors (zeros [2; 3]%nat) (zeros [3; 2]%nat) false).
    discriminate.
  - apply (jsd_update_errors (zeros [4]%nat) (zeros [4]%nat) false).
    + reflexivity.
    + left. discriminate.
  - apply (jsd_update_errors t_10_20_5 t_10_20_5 false); reflexivity.
Defined.

End Errors.

(** ** Arithmetic of tensor entries *)

Section NumAlgebra.

Lemma add_comm a b : Num.add a b = Num.add b a.
Proof. destruct a, b; try reflexivity. unfold Num.add. f_equal. lra. Qed.

Lemma add_0_l a : Num.add (Fin 0) a = a.
Proof. destruct a; try reflexivity. unfold Num.add. f_equal. lra. Qed.

Lemma add_0_r a : Num.add a (Fin 0) = a.
Proof. rewrite add_comm. apply add_0_l. Qed.

Lemma sum_cons a l : Num.sum (a :: l) = Num.add a (Num.sum l).
Proof. reflexivity. Qed.

Lemma sum_singleton a : Num.sum [a] = a.
Proof. unfold Num.sum. simpl. apply add_0_r. Qed.



Lemma signed_inf_zero : signed_inf 0 = NaN.
Proof.
  unfold signed_inf.
  destruct (Rlt_dec 0 0); [lra|]. destruct (Rlt_dec 0 0); [lra|reflexivity].
Qed.

Lemma div_fin x y : y <> 0 -> Num.div (Fin x) (Fin y) = Fin (x / y).
Proof. intros H. unfold Num.div. destruct (Req_dec_T y 0); tauto. Qed.

Lemma log_fin x : 0 < x -> Num.log (Fin x) = Fin (ln x).
Proof. intros H. unfold Num.log. destruct (Rlt_dec 0 x); tauto. Qed.

Lemma eq_zero_true x : x = 0 -> eq_zero (Fin x) = true.
Proof. intros H. unfold eq_zero. destruct (Req_dec_T x 0); tauto. Qed.

Lemma eq_zero_false x : x <> 0 -> eq_zero (Fin x) = false.
Proof. intros H. unfold eq_zero. destruct (Req_dec_T x 0); tauto. Qed.

End NumAlgebra.

(** ** Symmetry *)

Section Symmetry.

Lemma measure_log_sym a b : Spec.measure_log a b = Spec.measure_log b a.
Proof.
  unfold Spec.measure_log.
  rewrite (zipWith_swap Num.add Num.add (map Num.exp b) (map Num.exp a))
    by (intros; apply add_comm).
  apply f_equal. apply add_comm.
Qed.

Lemma measure_prob_sym a b : Spec.measure_prob a b = Spec.measure_prob b a.
Proof.
  unfold Spec.measure_prob.
  rewrite (zipWith_swap Num.add Num.add (Spec.normalize b) (Spec.normalize a))
    by (intros; apply add_comm).
  apply f_equal. apply add_comm.
Qed.

Lemma per_sample_sym lp a b : Spec.per_sample lp a b = Spec.per_sample lp b a.
Proof. destruct lp; [apply measure_log_sym | apply measure_prob_sym]. Qed.

(** C7: with reduction "none" the divergence is symmetric in its two
    arguments, entry by entry, on both the log-probability and the
    probability path. *)
Theorem js_divergence_symmetric (p q : Tensor) (log_prob : bool) (N d : nat) :
  shape p = [N; d] -> shape q = [N; d] -> wf p -> wf q ->
  js_divergence p q log_prob (Some "none"%string)
  = js_divergence q p log_prob (Some "none"%string).
Proof.
  intros Hp Hq Wp Wq. unfold js_divergence.
  rewrite (jsd_update_rows p q log_prob N d Hp Hq Wp Wq).
  rewrite (jsd_update_rows q p log_prob N d Hq Hp Wq Wp).
  unfold Spec.update. rewrite Hp, Hq. simpl.
  unfold ret, _jsd_compute. simpl. do 2 f_equal.
  apply zipWith_swap. intros x y. apply per_sample_sym.
Qed.

Lemma js_divergence_symmetric_witness :
  js_divergence p_mass q_zero false (Some "none"%string)
  = js_divergence q_zero p_mass false (Some "none"%string).
Proof.
  apply (js_divergence_symmetric p_mass q_zero false 1 3);
    try reflexivity; solve_wf.
Defined.

End Symmetry.

(** ** The stateful metric against the single-shot function *)

Section Metric.

(** What a successful [_jsd_update] tells about its inputs and outputs. *)
Lemma jsd_update_inv p q lp m n :
  _jsd_update p q lp = inr (m, n) ->
  exists d, shape p = [n; d] /\ shape q = [n; d] /\ shape m = [n].
Proof.
  unfold _jsd_update, _check_same_shape, ndim.
  destruct (list_eq_dec Nat.eq_dec (shape p) (shape q)) as [e|ne];
    [|discriminate].
  simpl bind. rewrite <- e.
  destruct (shape p) as [|n0 [|d0 [|x s]]] eqn:Hs; simpl; try discriminate.
  intros H. injection H as Hm Hn. subst n0.
  exists d0. split; [reflexivity|]. split; [reflexivity|].
  subst m. destruct lp; cbn; rewrite ?Hs; reflexivity.
Qed.

Lemma wrap64_small z : (0 <= z < 2 ^ 63)%Z -> wrap64 z = z.
Proof.
  intros H. unfold wrap64.
  rewrite Z.mod_small by (change (2 ^ 64)%Z with (2 ^ 63 + 2 ^ 63)%Z; lia).
  lia.
Qed.


Lemma allowed_reduction_cases r :
  JSDivergence.py_in r JSDivergence.allowed_reduction = true ->
  r = Some "mean"%string \/ r = Some "sum"%string
  \/ r = Some "none"%string \/ r = None.
Proof.
  destruct r as [s|]; [|now auto].
  unfold JSDivergence.py_in, JSDivergence.allowed_reduction. simpl.
  destruct (String.eqb_spec s "mean"); [subst; now auto|].
  destruct (String.eqb_spec s "sum"); [subst; now auto|].
  destruct (String.eqb_spec s "none"); [subst; now auto|].
  discriminate.
Qed.

(** The constructor accepts exactly the four reductions and fixes the kind
    of the state; updates keep it, so the state-kind errors of [update] and
    [compute] cannot occur on a constructed metric. *)
Lemma init_state_ok v r s :
  JSDivergence.__init__ v r = inr s ->
  state_ok s /\ JSDivergence.py_in r JSDivergence.allowed_reduction = true
  /\ JSDivergence.reduction s = r /\ JSDivergence.total s = 0%Z.
Proof.
  unfold JSDivergence.__init__. destruct v; try discriminate.
  destruct (JSDivergence.py_in r JSDivergence.allowed_reduction) eqn:Hr;
    [|discriminate].
  cbn [negb]. cbv iota. intros H.
  destruct (allowed_reduction_cases r Hr) as [-> | [-> | [-> | ->]]];
    cbn in H; injection H as <-; unfold state_ok; cbn; auto.
Qed.

Lemma update_state_ok s p q s' :
  state_ok s -> JSDivergence.update s p q = inr s' ->
  state_ok s'
  /\ JSDivergence.log_prob s' = JSDivergence.log_prob s
  /\ JSDivergence.reduction s' = JSDivergence.reduction s.
Proof.
  unfold state_ok, JSDivergence.update.
  destruct (_jsd_update p q (JSDivergence.log_prob s)) as [e|[m n]];
    [discriminate|].
  cbn [bind]. destruct s as [lp r ms tot]. cbn.
  destruct ms as [a|l]; intros [-> | ->]; cbn; intros H;
    injection H as <-; cbn; auto.
Qed.

Lemma update_error_from_kernel s p q e :
  state_ok s -> JSDivergence.update s p q = inl e ->
  _jsd_update p q (JSDivergence.log_prob s) = inl e.
Proof.
  unfold state_ok, JSDivergence.update.
  destruct (_jsd_update p q (JSDivergence.log_prob s)) as [e'|[m n]].
  - cbn [bind]. intros _ H. now injection H as ->.
  - cbn [bind]. destruct s as [lp r ms tot]. cbn.
    destruct ms as [a|l]; intros [-> | ->]; cbn; discriminate.
Qed.

Lemma compute_succeeds s :
  state_ok s -> exists t, JSDivergence.compute s = inr t.
Proof.
  unfold state_ok, JSDivergence.compute.
  destruct s as [lp r ms tot]. cbn.
  destruct ms as [a|l]; intros [-> | ->]; cbn; eauto.
Qed.




End Metric.

(** ** The kernel on finite entries *)

Section FinitePath.

Import RealJSD.



Lemma sum_map_Fin a : Num.sum (map Fin a) = Fin (Rsum a).
Proof.
  induction a as [|x a IH]; [reflexivity|].
  cbn [map]. rewrite sum_cons, IH. reflexivity.
Qed.

Lemma normalize_fin a :
  Rsum a <> 0 -> Spec.normalize (map Fin a) = map Fin (normalize a).
Proof.
  intros H. unfold Spec.normalize, normalize.
  rewrite sum_map_Fin, !map_map. apply map_ext. intros x. now apply div_fin.
Qed.

Lemma mix_fin a b :
  map (Num.mul (Fin 0.5)) (zipWith Num.add (map Fin a) (map Fin b))
  = map Fin (mix a b).
Proof.
  unfold mix. revert b; induction a as [|x a IH]; intros [|y b];
    try reflexivity.
  cbn [map]. rewrite !zipWith_cons. cbn [map]. now rewrite IH.
Qed.

(** The guard of [_safe_xlogy] is what keeps an entry finite: where the
    first argument is zero the quotient may be anything. *)
Lemma safe_xlogy_elem_fin x m :
  (x <> 0 -> 0 < x /\ 0 < m) ->
  safe_xlogy_elem (Fin x) (Num.div (Fin x) (Fin m)) = Fin (xlogy x (x / m)).
Proof.
  intros H. unfold safe_xlogy_elem, xlogy.
  destruct (Req_dec_T x 0) as [e|ne].
  - now rewrite (eq_zero_true x e).
  - rewrite (eq_zero_false x ne). destruct (H ne) as [Hx Hm].
    rewrite div_fin by lra. rewrite log_fin by (apply Rdiv_lt_0_compat; lra).
    reflexivity.
Qed.

Lemma kl_fin xs ms :
  Forall guarded (combine xs ms) ->
  Num.sum (Spec.safe_xlogy (map Fin xs)
             (zipWith Num.div (map Fin xs) (map Fin ms)))
  = Fin (kl xs ms).
Proof.
  unfold Spec.safe_xlogy, kl.
  revert ms; induction xs as [|x xs IH]; intros [|m ms] H; try reflexivity.
  cbn [combine] in H. inversion H as [|? ? Hxm Hrest]; subst.
  cbn [map]. rewrite !zipWith_cons. rewrite sum_cons, (IH ms Hrest).
  cbn [fst snd] in Hxm.
  change (if eq_zero (Fin x) then Fin 0
          else Num.mul (Fin x) (Num.log (Num.div (Fin x) (Fin m))))
    with (safe_xlogy_elem (Fin x) (Num.div (Fin x) (Fin m))).
  rewrite (safe_xlogy_elem_fin x m Hxm). reflexivity.
Qed.

Lemma pos_of_nonneg x : 0 <= x -> x <> 0 -> 0 < x.
Proof. intros [H|H] ne; [exact H | now symmetry in H]. Qed.

Lemma mix_cons x a y b : mix (x :: a) (y :: b) = 0.5 * (x + y) :: mix a b.
Proof. reflexivity. Qed.

Lemma mix_nil_r a : mix a [] = [].
Proof. now destruct a. Qed.

Lemma mix_guarded_l a b :
  Forall (Rle 0) a -> Forall (Rle 0) b -> Forall guarded (combine a (mix a b)).
Proof.
  intros Ha; revert b; induction Ha as [|x a Hx Ha IH]; intros b Hb.
  - constructor.
  - destruct Hb as [|y b Hy Hb]; [constructor|].
    rewrite mix_cons. cbn [combine]. constructor; [|now apply IH].
    unfold guarded; cbn [fst snd]. intros ne.
    pose proof (pos_of_nonneg x Hx ne). split; lra.
Qed.

Lemma mix_guarded_r a b :
  Forall (Rle 0) a -> Forall (Rle 0) b -> Forall guarded (combine b (mix a b)).
Proof.
  intros Ha; revert b; induction Ha as [|x a Hx Ha IH]; intros b Hb.
  - destruct b; constructor.
  - destruct Hb as [|y b Hy Hb]; [constructor|].
    rewrite mix_cons. cbn [combine]. constructor; [|now apply IH].
    unfold guarded; cbn [fst snd]. intros ne.
    pose proof (pos_of_nonneg y Hy ne). split; lra.
Qed.

Lemma Rsum_nil : Rsum [] = 0.
Proof. reflexivity. Qed.

Lemma Rsum_cons x a : Rsum (x :: a) = x + Rsum a.
Proof. reflexivity. Qed.



Lemma normalize_nonneg a :
  Forall (Rle 0) a -> 0 < Rsum a -> Forall (Rle 0) (normalize a).
Proof.
  intros Ha Hs. unfold normalize. apply Forall_map.
  eapply Forall_impl; [|exact Ha]. intros x Hx. cbv beta.
  apply Rmult_le_pos; [lra|]. left. now apply Rinv_0_lt_compat.
Qed.


(** The probability path on finite nonnegative rows with positive sums. *)
Lemma measure_prob_fin a b :
  Forall (Rle 0) a -> Forall (Rle 0) b -> 0 < Rsum a -> 0 < Rsum b ->
  Spec.measure_prob (map Fin a) (map Fin b) = Fin (jsd_prob a b).
Proof.
  intros Ha Hb Sa Sb. unfold Spec.measure_prob, jsd_prob.
  rewrite !normalize_fin by lra. rewrite mix_fin.
  pose proof (normalize_nonneg a Ha Sa) as Na.
  pose proof (normalize_nonneg b Hb Sb) as Nb.
  rewrite (kl_fin _ _ (mix_guarded_l _ _ Na Nb)).
  rewrite (kl_fin _ _ (mix_guarded_r _ _ Na Nb)).
  reflexivity.
Qed.



Lemma ln_pow_lit x (n : nat) : 0 < x -> ln (x ^ n) = IZR (Z.of_nat n) * ln x.
Proof. intros H. rewrite ln_pow by exact H. now rewrite INR_IZR_INZ. Qed.

Lemma ln2_pos : 0 < ln 2.
Proof. pose proof ln_lt_2. lra. Qed.













End FinitePath.

(** ** Range and finiteness of the divergence *)

Section Range.

Import RealJSD.
















Lemma valid_p_mass : valid_rows false p_mass.
Proof.
  unfold valid_rows, p_mass, rows. cbn. constructor; [|constructor].
  split.
  - repeat constructor; cbn; lra.
  - unfold Num.sum, Num.add. cbn. lra.
Qed.

Lemma valid_q_zero : valid_rows false q_zero.
Proof.
  unfold valid_rows, q_zero, rows. cbn. constructor; [|constructor].
  split.
  - repeat constructor; cbn; lra.
  - unfold Num.sum, Num.add. cbn. lra.
Qed.





End Range.

(** ** Evaluating the kernel on small batches *)

Section Evaluate.

Import RealJSD.

Lemma xlogy_zero x y : x = 0 -> xlogy x y = 0.
Proof. intros H. unfold xlogy. destruct (Req_dec_T x 0); tauto. Qed.

Lemma xlogy_nz x y : x <> 0 -> xlogy x y = x * ln y.
Proof. intros H. unfold xlogy. destruct (Req_dec_T x 0); tauto. Qed.

Lemma normalize_id a : Rsum a = 1 -> normalize a = a.
Proof.
  intros H. unfold normalize. rewrite H.
  rewrite <- (map_id a) at 2. apply map_ext. intros x. lra.
Qed.

Lemma jsd_prob_normalized a b :
  Rsum a = 1 -> Rsum b = 1 ->
  jsd_prob a b = 0.5 * (kl a (mix a b) + kl b (mix a b)).
Proof. intros Ha Hb. unfold jsd_prob. now rewrite !normalize_id. Qed.

Lemma jsd_prob_disjoint : jsd_prob [1; 0] [0; 1] = ln 2.
Proof.
  rewrite jsd_prob_normalized by (cbn; lra).
  unfold kl, mix, zipWith. cbn [map combine fst snd].
  rewrite !Rsum_cons, Rsum_nil.
  rewrite !(xlogy_zero 0) by reflexivity.
  rewrite !xlogy_nz by lra.
  replace (1 / (0.5 * (1 + 0))) with 2 by lra.
  replace (1 / (0.5 * (0 + 1))) with 2 by lra.
  lra.
Qed.

Lemma jsd_prob_same : jsd_prob [1; 0] [1; 0] = 0.
Proof.
  rewrite jsd_prob_normalized by (cbn; lra).
  unfold kl, mix, zipWith. cbn [map combine fst snd].
  rewrite !Rsum_cons, Rsum_nil.
  rewrite !(xlogy_zero 0) by reflexivity.
  rewrite !xlogy_nz by lra.
  replace (1 / (0.5 * (1 + 1))) with 1 by lra.
  rewrite ln_1. lra.
Qed.

Lemma update_disjoint :
  _jsd_update p_disjoint q_disjoint false
  = inr (mkTensor [1%nat] [Fin (ln 2)], 1%nat).
Proof.
  rewrite (jsd_update_rows p_disjoint q_disjoint false 1 2)
    by (reflexivity || solve_wf).
  unfold Spec.update. cbn. do 4 f_equal.
  change (Spec.measure_prob (map Fin [1; 0]) (map Fin [0; 1]) = Fin (ln 2)).
  rewrite (measure_prob_fin [1; 0] [0; 1]);
    try (repeat constructor; lra); try (cbn; lra).
  now rewrite jsd_prob_disjoint.
Qed.

Lemma update_same :
  _jsd_update p_same p_same false
  = inr (mkTensor [2%nat] [Fin 0; Fin 0], 2%nat).
Proof.
  rewrite (jsd_update_rows p_same p_same false 2 2)
    by (reflexivity || solve_wf).
  unfold Spec.update. cbn.
  change [Fin 1; Fin 0] with (map Fin [1; 0]).
  rewrite (measure_prob_fin [1; 0] [1; 0]);
    try (repeat constructor; lra); try (cbn; lra).
  now rewrite jsd_prob_same.
Qed.

Lemma two_updates_mean (lp : bool) (p1 q1 p2 q2 m1 m2 : Tensor)
  (N1 N2 : nat) :
  _jsd_update p1 q1 lp = inr (m1, N1) ->
  _jsd_update p2 q2 lp = inr (m2, N2) ->
  (Z.of_nat N1 + Z.of_nat N2 < 2 ^ 63)%Z ->
  two_updates lp (Some "mean"%string) p1 q1 p2 q2
  = inr (mkTensor []
           [Num.div (Num.add (Num.sum (data m1)) (Num.sum (data m2)))
                    (of_Z (Z.of_nat N1 + Z.of_nat N2))]).
Proof.
  intros E1 E2 HN. unfold two_updates. cbn.
  unfold JSDivergence.update at 1. cbn. rewrite E1. cbn.
  unfold JSDivergence.update. cbn. rewrite E2. cbn.
  unfold ret, _jsd_compute, tdiv_int, tsum, tadd, tzip, tmap. cbn.
  rewrite add_0_r, add_0_l.
  rewrite (wrap64_small (Z.of_nat N1)) by lia.
  rewrite wrap64_small by lia. reflexivity.
Qed.

(** C5: with reduction "mean", after two updates whose batches have [N1] and
    [N2] samples and per-sample measures summing to [sum1] and [sum2], the
    metric computes [(sum1 + sum2) / (N1 + N2)]; on a batch of one sample
    with divergence ln 2 followed by a batch of two samples with divergence
    0 this is ln 2 / 3, while the unweighted average of the two batch means
    is ln 2 / 2. *)
Theorem mean_is_count_weighted :
  (forall (lp : bool) (p1 q1 p2 q2 m1 m2 : Tensor) (N1 N2 : nat),
     _jsd_update p1 q1 lp = inr (m1, N1) ->
     _jsd_update p2 q2 lp = inr (m2, N2) ->
     (Z.of_nat N1 + Z.of_nat N2 < 2 ^ 63)%Z ->
     two_updates lp (Some "mean"%string) p1 q1 p2 q2
     = inr (mkTensor []
              [Num.div (Num.add (Num.sum (data m1)) (Num.sum (data m2)))
                       (of_Z (Z.of_nat N1 + Z.of_nat N2))]))
  /\ two_updates false (Some "mean"%string)
       p_disjoint q_disjoint p_same p_same
     = inr (mkTensor [] [Fin (ln 2 / 3)])
  /\ js_divergence p_disjoint q_disjoint false (Some "mean"%string)
     = inr (mkTensor [] [Fin (ln 2)])
  /\ js_divergence p_same p_same false (Some "mean"%string)
     = inr (mkTensor [] [Fin 0])
  /\ ln 2 / 3 <> (ln 2 + 0) / 2.

Proof.
  split; [exact two_updates_mean|].
  split; [|split; [|split]].
  - rewrite (two_updates_mean _ _ _ _ _ _ _ _ _ update_disjoint update_same)
      by now vm_compute.
    cbn. unfold Num.sum, Num.add. cbn. unfold of_Z.
    rewrite div_fin by lra. do 4 f_equal. lra.
  - unfold js_divergence. rewrite update_disjoint. cbn.
    unfold ret, _jsd_compute, tdiv_int, tsum, tmap, of_Z. cbn.
    unfold Num.sum, Num.add. cbn. rewrite div_fin by lra.
    do 4 f_equal. lra.
  - unfold js_divergence. rewrite update_same. cbn.
    unfold ret, _jsd_compute, tdiv_int, tsum, tmap, of_Z. cbn.
    unfold Num.sum, Num.add. cbn. rewrite div_fin by lra.
    do 4 f_equal. lra.
  - pose proof ln2_pos. lra.
Qed.

Lemma mean_is_count_weighted_witness :
  two_updates false (Some "mean"%string) p_disjoint q_disjoint p_same p_same
  = inr (mkTensor []
           [Num.div (Num.add (Num.sum [Fin (ln 2)]) (Num.sum [Fin 0; Fin 0]))
                    (of_Z (Z.of_nat 1 + Z.of_nat 2))]).
Proof.
  apply (proj1 mean_is_count_weighted false
           p_disjoint q_disjoint p_same p_same
           (mkTensor [1%nat] [Fin (ln 2)]) (mkTensor [2%nat] [Fin 0; Fin 0])
           1%nat 2%nat update_disjoint update_same).
  now vm_compute.
Defined.

End Evaluate.

(** ** Rescaling a row of probabilities *)

Section RescaledEntries.

Variable c : R.
Hypothesis Hc : 0 < c.








End RescaledEntries.

Section Rescaling.





Lemma length_concat_uniform (rs : list (list num)) d :
  Forall (fun r => length r = d) rs ->
  length (concat rs) = (length rs * d)%nat.
Proof.
  induction 1 as [|r rs Hr _ IH]; [reflexivity|].
  cbn. rewrite length_app, IH, Hr. reflexivity.
Qed.






End Rescaling.

(** ** The documented example *)

Section DocExample.

Import RealJSD.

Lemma sq_down_sound (S c : Z) (y : R) :
  (0 < S)%Z -> (0 <= c)%Z -> IZR c / IZR S <= y ->
  (0 <= c * c / S)%Z /\ IZR (c * c / S) / IZR S <= y * y.
Proof.
  intros HS Hc Hy.
  assert (HS' : 0 < IZR S) by now apply IZR_lt.
  assert (Hc' : 0 <= IZR c) by now apply IZR_le.
  split.
  - apply Z.div_pos; [nia | exact HS].
  - pose proof (Z.mul_div_le (c * c) S HS) as H.
    apply IZR_le in H. rewrite !mult_IZR in H.
    assert (H1 : IZR (c * c / S) <= IZR c * IZR c / IZR S).
    { apply (Rmult_le_reg_l (IZR S)); [exact HS'|].
      replace (IZR S * (IZR c * IZR c / IZR S)) with (IZR c * IZR c)
        by (field; lra). exact H. }
    assert (H2 : 0 <= IZR c / IZR S).
    { apply Rmult_le_pos; [exact Hc'|]. left. now apply Rinv_0_lt_compat. }
    assert (H3 : IZR c / IZR S * (IZR c / IZR S) <= y * y) by nra.
    apply Rle_trans with (IZR c / IZR S * (IZR c / IZR S)); [|exact H3].
    apply (Rmult_le_reg_r (IZR S)); [exact HS'|].
    replace (IZR c / IZR S * (IZR c / IZR S) * IZR S)
      with (IZR c * IZR c / IZR S) by (field; lra).
    replace (IZR (c * c / S) / IZR S * IZR S) with (IZR (c * c / S))
      by (field; lra).
    exact H1.
Qed.

Lemma iter_sq_sound (S : Z) (k : nat) : forall (c : Z) (y : R),
  (0 < S)%Z -> (0 <= c)%Z -> IZR c / IZR S <= y ->
  IZR (iter_sq S k c) / IZR S <= y ^ (2 ^ k).
Proof.
  induction k as [|k IH]; intros c y HS Hc Hy.
  - cbn. lra.
  - destruct (sq_down_sound S c y HS Hc Hy) as [Hc' Hy'].
    cbn [iter_sq]. specialize (IH _ _ HS Hc' Hy').
    replace (y ^ (2 ^ Datatypes.S k)) with ((y * y) ^ (2 ^ k)); [exact IH|].
    rewrite Nat.pow_succ_r', pow_mult. f_equal. ring.
Qed.

Lemma exp_pow_nat x n : Rtrigo_def.exp x ^ n = Rtrigo_def.exp (INR n * x).
Proof.
  induction n as [|n IH].
  - cbn. now rewrite Rmult_0_l, exp_0.
  - rewrite S_INR. cbn [pow]. rewrite IH, <- exp_plus. f_equal. ring.
Qed.

Lemma exp_lower_fixed (S c : Z) (k : nat) (a : R) :
  (0 < S)%Z -> (0 <= c)%Z -> IZR c / IZR S <= 1 + a / 2 ^ k ->
  IZR (iter_sq S k c) / IZR S <= Rtrigo_def.exp a.
Proof.
  intros HS Hc Hy.
  pose proof (exp_ineq1_le (a / 2 ^ k)) as He.
  assert (H : IZR c / IZR S <= Rtrigo_def.exp (a / 2 ^ k)) by lra.
  pose proof (iter_sq_sound S k c _ HS Hc H) as B.
  rewrite exp_pow_nat in B. rewrite pow_INR in B.
  replace (INR 2 ^ k * (a / 2 ^ k)) with a in B; [exact B|].
  change (INR 2) with (1 + 1). replace (1 + 1) with 2 by lra.
  field. apply pow_nonzero. lra.
Qed.

Lemma ln_le_of_exp x a : 0 < x -> x <= Rtrigo_def.exp a -> ln x <= a.
Proof.
  intros Hx [H|H].
  - left. rewrite <- (ln_exp a). now apply ln_increasing.
  - right. rewrite H. apply ln_exp.
Qed.

Lemma doc_ratio_pos : 0 < doc_ratio.
Proof.
  unfold doc_ratio.
  repeat match goal with
         | |- 0 < _ * _ => apply Rmult_lt_0_compat
         | |- 0 < _ ^ _ => apply pow_lt
         end; lra.
Qed.

Lemma doc_ratio_upper : ln doc_ratio <= 3.3705.
Proof.
  apply ln_le_of_exp; [apply doc_ratio_pos|].
  eapply Rle_trans;
    [|apply (exp_lower_fixed SC 1000051429748535156 16 3.3705)].
  - let v := eval vm_compute in (iter_sq SC 16 1000051429748535156) in
    change (iter_sq SC 16 1000051429748535156) with v.
    unfold doc_ratio, SC. lra.
  - reflexivity.
  - discriminate.
  - unfold SC. lra.
Qed.

Lemma doc_ratio_lower : 3.3675 <= ln doc_ratio.
Proof.
  pose proof doc_ratio_pos as Hpos.
  assert (H : ln (/ doc_ratio) <= - 3.3675).
  { apply ln_le_of_exp; [now apply Rinv_0_lt_compat|].
    eapply Rle_trans;
      [|apply (exp_lower_fixed SC 999948616027832031 16 (- 3.3675))].
    - let v := eval vm_compute in (iter_sq SC 16 999948616027832031) in
      change (iter_sq SC 16 999948616027832031) with v.
      unfold doc_ratio, SC. lra.
    - reflexivity.
    - discriminate.
    - unfold SC. lra. }
  rewrite ln_Rinv in H by exact Hpos. lra.
Qed.

Lemma ln_doc_ratio :
  ln doc_ratio
  = 27 * ln (27 / 26) + 36 * ln (72 / 61) + 12 * ln (24 / 37)
    + (25 * ln (25 / 26) + 25 * ln (50 / 61) + 25 * ln (50 / 37)).
Proof.
  unfold doc_ratio.
  repeat (rewrite ln_mult;
          [| repeat match goal with
                    | |- 0 < _ * _ => apply Rmult_lt_0_compat
                    | |- 0 < _ ^ _ => apply pow_lt
                    end; lra ..]).
  rewrite !ln_pow_lit by lra. cbn [Z.of_nat Pos.of_succ_nat Pos.succ].
  reflexivity.
Qed.

Lemma jsd_prob_doc :
  jsd_prob [0.36; 0.48; 0.16] [1 / 3; 1 / 3; 1 / 3] = ln doc_ratio / 150.
Proof.
  rewrite jsd_prob_normalized by (cbn; lra).
  unfold kl, mix, zipWith. cbn [map combine fst snd].
  rewrite !Rsum_cons, Rsum_nil.
  rewrite !xlogy_nz by lra.
  replace (0.36 / (0.5 * (0.36 + 1 / 3))) with (27 / 26) by lra.
  replace (0.48 / (0.5 * (0.48 + 1 / 3))) with (72 / 61) by lra.
  replace (0.16 / (0.5 * (0.16 + 1 / 3))) with (24 / 37) by lra.
  replace (1 / 3 / (0.5 * (0.36 + 1 / 3))) with (25 / 26) by lra.
  replace (1 / 3 / (0.5 * (0.48 + 1 / 3))) with (50 / 61) by lra.
  replace (1 / 3 / (0.5 * (0.16 + 1 / 3))) with (50 / 37) by lra.
  rewrite ln_doc_ratio. lra.
Qed.

Lemma jsd_prob_doc_bounds :
  0.02245 <= jsd_prob [0.36; 0.48; 0.16] [1 / 3; 1 / 3; 1 / 3] <= 0.02247.
Proof.
  rewrite jsd_prob_doc.
  pose proof doc_ratio_lower. pose proof doc_ratio_upper. lra.
Qed.

Lemma update_doc :
  _jsd_update p_doc q_doc false
  = inr (mkTensor [1%nat]
           [Fin (jsd_prob [0.36; 0.48; 0.16] [1 / 3; 1 / 3; 1 / 3])], 1%nat).
Proof.
  rewrite (jsd_update_rows p_doc q_doc false 1 3)
    by (reflexivity || solve_wf).
  unfold Spec.update. cbn. do 4 f_equal.
  change (Spec.measure_prob (map Fin [0.36; 0.48; 0.16])
            (map Fin [1 / 3; 1 / 3; 1 / 3])
          = Fin (jsd_prob [0.36; 0.48; 0.16] [1 / 3; 1 / 3; 1 / 3])).
  apply measure_prob_fin; try (repeat constructor; lra); cbn; lra.
Qed.

(** C2 (as amended): on the documented input the default call returns a
    0-dimensional tensor whose value lies between 0.02245 and 0.02247,
    that is 0.0225 to four decimals, and reduction "sum" returns the same
    value, the batch having one sample. *)
Theorem js_divergence_doc_example :
  exists r,
    js_divergence p_doc q_doc false (Some "mean"%string)
      = inr (mkTensor [] [Fin r])
    /\ js_divergence p_doc q_doc false (Some "sum"%string)
      = inr (mkTensor [] [Fin r])
    /\ 0.02245 <= r <= 0.02247.
Proof.
  exists (jsd_prob [0.36; 0.48; 0.16] [1 / 3; 1 / 3; 1 / 3]).
  split; [|split].
  - unfold js_divergence. rewrite update_doc. cbn.
    unfold ret, _jsd_compute, tdiv_int, tsum, tmap, of_Z. cbn.
    unfold Num.sum, Num.add. cbn. rewrite div_fin by lra.
    do 4 f_equal. lra.
  - unfold js_divergence. rewrite update_doc. cbn.
    unfold ret, _jsd_compute, tsum. cbn.
    unfold Num.sum, Num.add. cbn. do 4 f_equal. lra.
  - apply jsd_prob_doc_bounds.
Qed.

(** C2 as stated fails: the value computed on the documented input is not
    within 0.002 of 0.0197. *)
Lemma doc_example_is_not_0_0197 :
  ~ exists r,
      js_divergence p_doc q_doc false (Some "mean"%string)
        = inr (mkTensor [] [Fin r])
      /\ Rabs (r - 0.0197) <= 0.002.
Proof.
  intros [r [E Hr]].
  unfold js_divergence in E. rewrite update_doc in E. cbn in E.
  unfold ret, _jsd_compute, tdiv_int, tsum, tmap, of_Z in E. cbn in E.
  unfold Num.sum, Num.add in E. cbn in E. rewrite div_fin in E by lra.
  injection E as E. pose proof jsd_prob_doc_bounds as B.
  unfold Rabs in Hr. destruct (Rcase_abs (r - 0.0197)); lra.
Qed.

End DocExample.

(** ** Accumulation over batches *)

Section Accumulation.

Lemma add_assoc a b c :
  Num.add a (Num.add b c) = Num.add (Num.add a b) c.
Proof.
  destruct a, b, c; try reflexivity. unfold Num.add. f_equal. lra.
Qed.

Lemma sum_app l1 l2 :
  Num.sum (l1 ++ l2) = Num.add (Num.sum l1) (Num.sum l2).
Proof.
  induction l1 as [|x l1 IH].
  - cbn [app]. change (Num.sum []) with (Fin 0). now rewrite add_0_l.
  - cbn [app]. rewrite !sum_cons, IH. apply add_assoc.
Qed.

Lemma chunks_app n1 n2 d l1 l2 :
  length l1 = (n1 * d)%nat ->
  chunks (n1 + n2) d (l1 ++ l2) = chunks n1 d l1 ++ chunks n2 d l2.
Proof.
  revert l1; induction n1 as [|n1 IH]; intros l1 Hl.
  - destruct l1; [reflexivity | discriminate].
  - cbn [Nat.add chunks app].
    assert (Hd : (d <= length l1)%nat) by (rewrite Hl; cbn; lia).
    rewrite firstn_app, skipn_app.
    replace (d - length l1)%nat with 0%nat by lia.
    cbn [firstn skipn]. rewrite app_nil_r. f_equal.
    apply IH. rewrite length_skipn, Hl. cbn. lia.
Qed.

Lemma zipWith_app {A B C} (f : A -> B -> C) a1 a2 b1 b2 :
  length a1 = length b1 ->
  zipWith f (a1 ++ a2) (b1 ++ b2) = zipWith f a1 b1 ++ zipWith f a2 b2.
Proof.
  revert b1; induction a1 as [|x a1 IH]; intros [|y b1] H;
    try discriminate; [reflexivity|].
  cbn [app]. rewrite !zipWith_cons. cbn [app]. f_equal. apply IH.
  now injection H.
Qed.

Lemma batch_ok_shapes d pq :
  batch_ok d pq ->
  shape (fst pq) = [batch_rows pq; d] /\ shape (snd pq) = [batch_rows pq; d]
  /\ wf (fst pq) /\ wf (snd pq).
Proof.
  intros [N [Hp [Hq [Wp Wq]]]]. unfold batch_rows. rewrite Hp. cbn [hd].
  split; [reflexivity|]. split; [exact Hq|]. split; assumption.
Qed.

Lemma chunks_concat_rows d (ts : list Tensor) :
  Forall (fun t => shape t = [hd 0%nat (shape t); d] /\ wf t) ts ->
  chunks (fold_right Nat.add 0%nat (map (fun t => hd 0%nat (shape t)) ts)) d
         (concat (map data ts))
  = concat (map rows ts).
Proof.
  induction 1 as [|t ts [Ht Wt] _ IH]; [reflexivity|].
  cbn [map fold_right concat].
  rewrite chunks_app by (now apply wf_2d_length).
  now rewrite IH, <- (rows_2d t _ d Ht).
Qed.

Lemma length_concat_data d (ts : list Tensor) :
  Forall (fun t => shape t = [hd 0%nat (shape t); d] /\ wf t) ts ->
  length (concat (map data ts))
  = (fold_right Nat.add 0%nat (map (fun t => hd 0%nat (shape t)) ts) * d)%nat.
Proof.
  induction 1 as [|t ts [Ht Wt] _ IH]; [reflexivity|].
  cbn [map fold_right concat]. rewrite length_app, IH.
  rewrite (wf_2d_length t _ d Ht Wt). lia.
Qed.

Lemma batches_fst d batches :
  Forall (batch_ok d) batches ->
  Forall (fun t => shape t = [hd 0%nat (shape t); d] /\ wf t)
         (map fst batches)
  /\ fold_right Nat.add 0%nat
       (map (fun t => hd 0%nat (shape t)) (map fst batches))
     = rows_total batches.
Proof.
  intros H. split.
  - apply Forall_map. eapply Forall_impl; [|exact H].
    intros pq Hpq. destruct (batch_ok_shapes d pq Hpq) as [Hp [_ [Wp _]]].
    split; [exact Hp | exact Wp].
  - unfold rows_total. now rewrite map_map.
Qed.

Lemma batches_snd d batches :
  Forall (batch_ok d) batches ->
  Forall (fun t => shape t = [hd 0%nat (shape t); d] /\ wf t)
         (map snd batches)
  /\ fold_right Nat.add 0%nat
       (map (fun t => hd 0%nat (shape t)) (map snd batches))
     = rows_total batches.
Proof.
  intros H. split.
  - apply Forall_map. eapply Forall_impl; [|exact H].
    intros pq Hpq. destruct (batch_ok_shapes d pq Hpq) as [_ [Hq [_ Wq]]].
    split; [|exact Wq]. now rewrite Hq.
  - unfold rows_total. rewrite map_map. f_equal.
    apply map_ext_in. intros pq Hin.
    rewrite Forall_forall in H.
    destruct (batch_ok_shapes d pq (H pq Hin)) as [_ [Hq _]].
    now rewrite Hq.
Qed.

(** The rows, the shape and the size of a concatenation of batches. *)
Lemma tcat_2d d (ts : list Tensor) :
  ts <> [] ->
  Forall (fun t => shape t = [hd 0%nat (shape t); d] /\ wf t) ts ->
  shape (tcat ts)
    = [fold_right Nat.add 0%nat (map (fun t => hd 0%nat (shape t)) ts); d]
  /\ rows (tcat ts) = concat (map rows ts)
  /\ length (data (tcat ts))
     = numel_of (shape (tcat ts)).
Proof.
  intros Hne H.
  assert (Hs : shape (tcat ts)
    = [fold_right Nat.add 0%nat (map (fun t => hd 0%nat (shape t)) ts); d]).
  { unfold tcat. cbn [shape]. destruct ts as [|t ts]; [contradiction|].
    inversion H as [|? ? [Ht _] _]; subst. cbn [hd]. now rewrite Ht. }
  split; [exact Hs|]. split.
  - rewrite (rows_2d _ _ d Hs). unfold tcat. cbn [data].
    now apply chunks_concat_rows.
  - rewrite Hs. unfold tcat. cbn [data].
    rewrite (length_concat_data d ts H). cbn. lia.
Qed.

Lemma measures_concat lp d batches :
  Forall (batch_ok d) batches ->
  zipWith (Spec.per_sample lp)
    (concat (map rows (map fst batches)))
    (concat (map rows (map snd batches)))
  = concat (map (measures_of lp) batches).
Proof.
  induction 1 as [|pq batches Hpq _ IH]; [reflexivity|].
  cbn [map concat].
  destruct (batch_ok_shapes d pq Hpq) as [Hp [Hq _]].
  rewrite zipWith_app.
  - now rewrite IH.
  - now rewrite (rows_2d_length _ _ d Hp), (rows_2d_length _ _ d Hq).
Qed.

Lemma wf_tcat d (ts : list Tensor) :
  ts <> [] ->
  Forall (fun t => shape t = [hd 0%nat (shape t); d] /\ wf t) ts ->
  (Z.of_nat (fold_right Nat.add 0%nat
               (map (fun t => hd 0%nat (shape t)) ts)) < 2 ^ 63)%Z ->
  wf (tcat ts).
Proof.
  intros Hne H Hb. destruct (tcat_2d d ts Hne H) as [Hs [_ Hl]].
  split; [exact Hl|]. rewrite Hs.
  constructor; [exact Hb|]. constructor; [|constructor].
  destruct ts as [|t ts]; [contradiction|].
  inversion H as [|? ? [Ht [_ Wd]] _]; subst.
  rewrite Ht in Wd. inversion Wd as [|? ? _ Wd']; subst.
  now inversion Wd'.
Qed.

(** The kernel on a concatenation of batches returns the concatenation of
    the batches' measures. *)
Lemma update_tcat lp d batches :
  batches <> [] -> Forall (batch_ok d) batches ->
  (Z.of_nat (rows_total batches) < 2 ^ 63)%Z ->
  _jsd_update (tcat (map fst batches)) (tcat (map snd batches)) lp
  = inr (mkTensor [rows_total batches]
           (concat (map (measures_of lp) batches)), rows_total batches).
Proof.
  intros Hne H Hb.
  destruct (batches_fst d batches H) as [Fp Sp].
  destruct (batches_snd d batches H) as [Fq Sq].
  assert (Np : map fst batches <> []) by (destruct batches; [contradiction | discriminate]).
  assert (Nq : map snd batches <> []) by (destruct batches; [contradiction | discriminate]).
  destruct (tcat_2d d _ Np Fp) as [Hsp [Rp _]].
  destruct (tcat_2d d _ Nq Fq) as [Hsq [Rq _]].
  rewrite Sp in Hsp. rewrite Sq in Hsq.
  rewrite (jsd_update_rows _ _ lp (rows_total batches) d Hsp Hsq).
  - unfold Spec.update. rewrite Hsp, Rp, Rq. cbn [hd].
    now rewrite (measures_concat lp d batches H).
  - apply (wf_tcat d _ Np Fp). now rewrite Sp.
  - apply (wf_tcat d _ Nq Fq). now rewrite Sq.
Qed.

Lemma update_batch_ok lp d pq :
  batch_ok d pq ->
  _jsd_update (fst pq) (snd pq) lp
  = inr (mkTensor [batch_rows pq] (measures_of lp pq), batch_rows pq).
Proof.
  intros H. destruct (batch_ok_shapes d pq H) as [Hp [Hq [Wp Wq]]].
  rewrite (jsd_update_rows _ _ lp _ d Hp Hq Wp Wq).
  unfold Spec.update, measures_of. now rewrite Hp.
Qed.

Lemma rows_total_cons pq batches :
  rows_total (pq :: batches) = (batch_rows pq + rows_total batches)%nat.
Proof. reflexivity. Qed.

(** The state after any number of updates, in closed form. *)
Lemma run_updates_aggregated lp r d batches :
  r = Some "mean"%string \/ r = Some "sum"%string ->
  Forall (batch_ok d) batches ->
  forall x t,
    (0 <= t)%Z -> (t + Z.of_nat (rows_total batches) < 2 ^ 63)%Z ->
    run_updates (JSDivergence.mk lp r (Aggregated (mkTensor [] [x])) t) batches
    = inr (JSDivergence.mk lp r
             (Aggregated
                (mkTensor []
                   [Num.add x
                      (Num.sum (concat (map (measures_of lp) batches)))]))
             (t + Z.of_nat (rows_total batches))).
Proof.
  intros Hr H. induction H as [|pq batches Hpq _ IH]; intros x t Ht Hb.
  - cbn. unfold ret. rewrite add_0_r. do 2 f_equal. lia.
  - rewrite rows_total_cons, Nat2Z.inj_add in Hb.
    cbn [run_updates]. unfold JSDivergence.update.
    cbn [JSDivergence.log_prob JSDivergence.reduction JSDivergence.measures
         JSDivergence.total].
    rewrite (update_batch_ok lp d pq Hpq). cbn [bind].
    assert (E : reduction_is_None r || reduction_is r "none" = false)
      by (destruct Hr as [-> | ->]; reflexivity).
    rewrite E. unfold ret at 1. cbn [bind].
    rewrite wrap64_small by lia.
    change (tadd (mkTensor [] [x])
                 (tsum (mkTensor [batch_rows pq] (measures_of lp pq))))
      with (mkTensor [] [Num.add x (Num.sum (measures_of lp pq))]).
    rewrite IH by lia.
    cbn [map concat]. rewrite sum_app, add_assoc.
    rewrite rows_total_cons, Nat2Z.inj_add. do 2 f_equal. lia.
Qed.

Lemma run_updates_per_sample lp r d batches :
  r = Some "none"%string \/ r = None ->
  Forall (batch_ok d) batches ->
  forall l t,
    run_updates (JSDivergence.mk lp r (PerSample l) t) batches
    = inr (JSDivergence.mk lp r
             (PerSample
                (l ++ map (fun pq => mkTensor [batch_rows pq]
                                       (measures_of lp pq)) batches))
             t).
Proof.
  intros Hr H. induction H as [|pq batches Hpq _ IH]; intros l t.
  - cbn. now rewrite app_nil_r.
  - cbn [run_updates]. unfold JSDivergence.update.
    cbn [JSDivergence.log_prob JSDivergence.reduction JSDivergence.measures
         JSDivergence.total].
    rewrite (update_batch_ok lp d pq Hpq). cbn [bind].
    assert (E : reduction_is_None r || reduction_is r "none" = true)
      by (destruct Hr as [-> | ->]; reflexivity).
    rewrite E. unfold ret at 1. cbn [bind].
    rewrite IH. cbn [map]. now rewrite <- app_assoc.
Qed.

Lemma dim_zero_cat_measures lp batches :
  dim_zero_cat (map (fun pq => mkTensor [batch_rows pq] (measures_of lp pq))
                    batches)
  = mkTensor [rows_total batches] (concat (map (measures_of lp) batches)).
Proof.
  unfold dim_zero_cat, rows_total. now rewrite !map_map.
Qed.

(** What the metric computes after any number of updates. *)
Lemma run_metric_closed_form lp r d batches :
  JSDivergence.py_in r JSDivergence.allowed_reduction = true ->
  Forall (batch_ok d) batches ->
  (Z.of_nat (rows_total batches) < 2 ^ 63)%Z ->
  run_metric lp r batches
  = inr (if JSDivergence.py_in r [Some "none"; None]%string
         then _jsd_compute
                (mkTensor [rows_total batches]
                   (concat (map (measures_of lp) batches))) 0 r
         else _jsd_compute
                (mkTensor []
                   [Num.sum (concat (map (measures_of lp) batches))])
                (Z.of_nat (rows_total batches)) r).
Proof.
  intros Hr H Hb. unfold run_metric.
  destruct (allowed_reduction_cases r Hr) as [-> | [-> | [-> | ->]]].
  - cbn [JSDivergence.__init__ JSDivergence.py_in JSDivergence.allowed_reduction
         existsb JSDivergence.reduction_eqb String.eqb Ascii.eqb Bool.eqb
         orb negb bind ret].
    cbn. rewrite (run_updates_aggregated lp _ d batches) by (auto; lia).
    cbn. now rewrite add_0_l.
  - cbn. rewrite (run_updates_aggregated lp _ d batches) by (auto; lia).
    cbn. now rewrite add_0_l.
  - cbn. rewrite (run_updates_per_sample lp _ d batches) by auto.
    cbn. now rewrite dim_zero_cat_measures.
  - cbn. rewrite (run_updates_per_sample lp _ d batches) by auto.
    cbn. now rewrite dim_zero_cat_measures.
Qed.

(** X1: the kernel distributes over the concatenation of two batches along
    the sample dimension: the measures of the concatenated batch are the
    measures of the first batch followed by those of the second, and the
    count is the sum of the counts. *)
Theorem kernel_of_concatenation (p1 q1 p2 q2 m1 m2 : Tensor) (lp : bool)
  (N1 N2 : nat) :
  wf p1 -> wf q1 -> wf p2 -> wf q2 ->
  _jsd_update p1 q1 lp = inr (m1, N1) ->
  _jsd_update p2 q2 lp = inr (m2, N2) ->
  tl (shape p1) = tl (shape p2) ->
  (Z.of_nat (N1 + N2) < 2 ^ 63)%Z ->
  _jsd_update (tcat [p1; p2]) (tcat [q1; q2]) lp
  = inr (mkTensor [(N1 + N2)%nat] (data m1 ++ data m2), (N1 + N2)%nat).
Proof.
  intros Wp1 Wq1 Wp2 Wq2 E1 E2 Hd Hb.
  destruct (jsd_update_inv _ _ _ _ _ E1) as [d1 [Hp1 [Hq1 _]]].
  destruct (jsd_update_inv _ _ _ _ _ E2) as [d2 [Hp2 [Hq2 _]]].
  rewrite Hp1, Hp2 in Hd. cbn in Hd. injection Hd as <-.
  assert (B1 : batch_ok d1 (p1, q1))
    by (exists N1; split; [exact Hp1|]; split; [exact Hq1|]; now split).
  assert (B2 : batch_ok d1 (p2, q2))
    by (exists N2; split; [exact Hp2|]; split; [exact Hq2|]; now split).
  pose proof (update_batch_ok lp d1 _ B1) as U1.
  pose proof (update_batch_ok lp d1 _ B2) as U2.
  cbn [fst snd] in U1, U2. rewrite E1 in U1. rewrite E2 in U2.
  injection U1 as Em1 En1. injection U2 as Em2 En2.
  pose proof (update_tcat lp d1 [(p1, q1); (p2, q2)]) as U.
  cbn [map fst snd concat] in U. rewrite app_nil_r in U.
  assert (Ht : rows_total [(p1, q1); (p2, q2)] = (N1 + N2)%nat).
  { unfold rows_total. cbn. rewrite <- En1, <- En2. lia. }
  rewrite Ht in U. rewrite U.
  - subst m1 m2. reflexivity.
  - discriminate.
  - repeat constructor; assumption.
  - exact Hb.
Qed.

Lemma kernel_of_concatenation_witness :
  _jsd_update (tcat [p_disjoint; p_same]) (tcat [q_disjoint; p_same]) false
  = inr (mkTensor [(1 + 2)%nat] ([Fin (ln 2)] ++ [Fin 0; Fin 0]),
         (1 + 2)%nat).
Proof.
  apply (kernel_of_concatenation p_disjoint q_disjoint p_same p_same
           (mkTensor [1%nat] [Fin (ln 2)]) (mkTensor [2%nat] [Fin 0; Fin 0])
           false 1 2);
    try solve_wf; try apply update_disjoint; try apply update_same;
    try reflexivity.
Defined.


Lemma batches_example_ok :
  Forall (batch_ok 2) [(p_disjoint, q_disjoint); (p_same, p_same)].
Proof.
  constructor; [|constructor; [|constructor]].
  - exists 1%nat. cbn [fst snd]. repeat split; try reflexivity;
      repeat constructor; now vm_compute.
  - exists 2%nat. cbn [fst snd]. repeat split; try reflexivity;
      repeat constructor; now vm_compute.
Qed.


Lemma sum_measures_Permutation lp (b1 b2 : list (Tensor * Tensor)) :
  Permutation b1 b2 ->
  Num.sum (concat (map (measures_of lp) b1))
  = Num.sum (concat (map (measures_of lp) b2))
  /\ rows_total b1 = rows_total b2.
Proof.
  induction 1 as [|x l l' _ [IH1 IH2]|x y l|l l' l'' _ [IH1 IH2] _ [IH3 IH4]].
  - now split.
  - split.
    + cbn [map concat]. now rewrite !sum_app, IH1.
    + rewrite !rows_total_cons. now rewrite IH2.
  - split.
    + cbn [map concat]. rewrite !sum_app, !add_assoc.
      f_equal. apply add_comm.
    + rewrite !rows_total_cons. lia.
  - split; [now rewrite IH1 | now rewrite IH2].
Qed.

(** X3: with reduction "mean" or "sum" the order in which the batches are
    fed to the metric does not matter. *)
Theorem update_order_irrelevant (lp : bool) (r : option string) (d : nat)
  (b1 b2 : list (Tensor * Tensor)) :
  r = Some "mean"%string \/ r = Some "sum"%string ->
  Permutation b1 b2 ->
  Forall (batch_ok d) b1 ->
  (Z.of_nat (rows_total b1) < 2 ^ 63)%Z ->
  run_metric lp r b1 = run_metric lp r b2.
Proof.
  intros Hr HP H Hb.
  assert (Ha : JSDivergence.py_in r JSDivergence.allowed_reduction = true)
    by (destruct Hr as [-> | ->]; reflexivity).
  destruct (sum_measures_Permutation lp b1 b2 HP) as [Es Et].
  assert (H2 : Forall (batch_ok d) b2).
  { rewrite Forall_forall in *. intros pq Hin. apply H.
    apply Permutation_in with b2; [now apply Permutation_sym | exact Hin]. }
  rewrite (run_metric_closed_form lp r d b1 Ha H Hb).
  rewrite (run_metric_closed_form lp r d b2 Ha H2) by (now rewrite <- Et).
  destruct Hr as [-> | ->]; cbn; rewrite Es, ?Et; reflexivity.
Qed.

Lemma update_order_irrelevant_witness :
  run_metric false (Some "mean"%string)
    [(p_disjoint, q_disjoint); (p_same, p_same)]
  = run_metric false (Some "mean"%string)
      [(p_same, p_same); (p_disjoint, q_disjoint)].
Proof.
  apply (update_order_irrelevant false (Some "mean"%string) 2).
  - now left.
  - apply perm_swap.
  - exact batches_example_ok.
  - now vm_compute.
Defined.

End Accumulation.

(** ** A constructed metric *)

Section Constructed.

Lemma update_keeps_total s p q s' :
  JSDivergence.reduction s = Some "none"%string
  \/ JSDivergence.reduction s = None ->
  JSDivergence.update s p q = inr s' ->
  JSDivergence.total s' = JSDivergence.total s.
Proof.
  intros Hr. unfold JSDivergence.update.
  destruct (_jsd_update p q (JSDivergence.log_prob s)) as [e|[m n]];
    [discriminate|].
  cbn [bind].
  assert (E : reduction_is_None (JSDivergence.reduction s)
              || reduction_is (JSDivergence.reduction s) "none" = true)
    by (destruct Hr as [-> | ->]; reflexivity).
  rewrite E. destruct (JSDivergence.measures s); [discriminate|].
  intros H. injection H as <-. reflexivity.
Qed.

Lemma run_updates_invariant batches : forall s,
  state_ok s ->
  (forall s', run_updates s batches = inr s' ->
     state_ok s'
     /\ JSDivergence.log_prob s' = JSDivergence.log_prob s
     /\ JSDivergence.reduction s' = JSDivergence.reduction s
     /\ (JSDivergence.reduction s = Some "none"%string
         \/ JSDivergence.reduction s = None ->
         JSDivergence.total s' = JSDivergence.total s))
  /\ (forall e, run_updates s batches = inl e ->
        exists pq, In pq batches
                   /\ _jsd_update (fst pq) (snd pq) (JSDivergence.log_prob s)
                      = inl e).
Proof.
  induction batches as [|pq batches IH]; intros s Hs.
  - split.
    + intros s' H. injection H as <-. auto.
    + intros e H. discriminate.
  - cbn [run_updates].
    destruct (JSDivergence.update s (fst pq) (snd pq)) as [e1|s1] eqn:E1.
    + split; [intros s' H; discriminate|].
      intros e H. cbn in H. injection H as <-.
      exists pq. split; [now left|].
      now apply update_error_from_kernel.
    + cbn [bind].
      destruct (update_state_ok s _ _ s1 Hs E1) as [Hs1 [Hl1 Hr1]].
      destruct (IH s1 Hs1) as [IHok IHerr]. split.
      * intros s' H. destruct (IHok s' H) as [A [B [C D]]].
        split; [exact A|]. split; [congruence|]. split; [congruence|].
        intros Hn. rewrite D by (now rewrite Hr1).
        now apply update_keeps_total with (fst pq) (snd pq).
      * intros e H. destruct (IHerr e H) as [pq' [Hin Hk]].
        exists pq'. split; [now right|]. now rewrite <- Hl1.
Qed.

(** X4: on a constructed metric, any sequence of updates keeps [log_prob]
    and [reduction], keeps the kind of the state, and with reduction "none"
    or [None] leaves the sample count [total] at 0; a failing sequence
    fails with the kernel's error on one of its batches and with nothing
    else. *)
Theorem constructed_metric_invariants (v : PyVal) (r : option string)
  (s0 : JSDivergence.t) (batches : list (Tensor * Tensor)) :
  JSDivergence.__init__ v r = inr s0 ->
  (forall s, run_updates s0 batches = inr s ->
     state_ok s
     /\ JSDivergence.log_prob s = JSDivergence.log_prob s0
     /\ JSDivergence.reduction s = r
     /\ (r = Some "none"%string \/ r = None -> JSDivergence.total s = 0%Z))
  /\ (forall e, run_updates s0 batches = inl e ->
        exists pq, In pq batches
                   /\ _jsd_update (fst pq) (snd pq) (JSDivergence.log_prob s0)
                      = inl e
                   /\ (e = RuntimeError_shape (shape (fst pq)) (shape (snd pq))
                       \/ e = ValueError (rank_message (fst pq) (snd pq)))).
Proof.
  intros H0. destruct (init_state_ok v r s0 H0) as [Hs [_ [Hr Ht]]].
  destruct (run_updates_invariant batches s0 Hs) as [Hok Herr]. split.
  - intros s H. destruct (Hok s H) as [A [B [C D]]].
    split; [exact A|]. split; [exact B|]. split; [congruence|].
    intros Hn. rewrite D by (now rewrite Hr). exact Ht.
  - intros e H. destruct (Herr e H) as [pq [Hin Hk]].
    exists pq. split; [exact Hin|]. split; [exact Hk|].
    revert Hk. unfold _jsd_update, _check_same_shape.
    destruct (list_eq_dec Nat.eq_dec (shape (fst pq)) (shape (snd pq))).
    + cbn [bind].
      destruct (negb (ndim (fst pq) =? 2)%nat || negb (ndim (snd pq) =? 2)%nat).
      * intros Hk. injection Hk as <-. now right.
      * discriminate.
    + intros Hk. injection Hk as <-. now left.
Qed.

Lemma constructed_metric_invariants_witness :
  (forall s,
     run_updates
       (JSDivergence.mk false (Some "none"%string) (PerSample []) 0)
       [(p_disjoint, q_disjoint); (t_100, t_50)] = inr s ->
     state_ok s
     /\ JSDivergence.log_prob s = false
     /\ JSDivergence.reduction s = Some "none"%string
     /\ (Some "none"%string = Some "none"%string
         \/ Some "none"%string = None -> JSDivergence.total s = 0%Z))
  /\ (forall e,
        run_updates
          (JSDivergence.mk false (Some "none"%string) (PerSample []) 0)
          [(p_disjoint, q_disjoint); (t_100, t_50)] = inl e ->
        exists pq, In pq [(p_disjoint, q_disjoint); (t_100, t_50)]
                   /\ _jsd_update (fst pq) (snd pq) false = inl e
                   /\ (e = RuntimeError_shape (shape (fst pq)) (shape (snd pq))
                       \/ e = ValueError (rank_message (fst pq) (snd pq)))).
Proof.
  apply (constructed_metric_invariants (PyBool false) (Some "none"%string)
           (JSDivergence.mk false (Some "none"%string) (PerSample []) 0)
           [(p_disjoint, q_disjoint); (t_100, t_50)]).
  reflexivity.
Defined.

(** X5: the constructor succeeds exactly when [log_prob] is a Python bool
    and [reduction] is one of "mean", "sum", "none", [None]; a [log_prob]
    that is not a bool raises TypeError whatever the reduction, and a bool
    with another reduction raises ValueError. *)
Theorem init_validation (v : PyVal) (r : option string) :
  ((exists s, JSDivergence.__init__ v r = inr s)
   <-> (exists b, v = PyBool b)
       /\ (r = Some "mean"%string \/ r = Some "sum"%string
           \/ r = Some "none"%string \/ r = None))
  /\ ((forall b, v <> PyBool b) ->
      exists msg, JSDivergence.__init__ v r = inl (TypeError msg))
  /\ (forall b, v = PyBool b ->
      ~ (r = Some "mean"%string \/ r = Some "sum"%string
         \/ r = Some "none"%string \/ r = None) ->
      exists msg, JSDivergence.__init__ v r = inl (ValueError msg)).
Proof.
  split; [split|split].
  - intros [s H]. destruct (init_state_ok v r s H) as [_ [Ha _]].
    split; [|now apply allowed_reduction_cases].
    destruct v; try discriminate. now exists b.
  - intros [[b ->] Hr].
    destruct Hr as [-> | [-> | [-> | ->]]]; cbn; eauto.
  - intros Hv. destruct v; cbn; eauto. now destruct (Hv b).
  - intros b -> Hr. cbn [JSDivergence.__init__].
    destruct (JSDivergence.py_in r JSDivergence.allowed_reduction) eqn:E.
    + destruct Hr. now apply allowed_reduction_cases.
    + cbn. eauto.
Qed.

Lemma init_validation_witness :
  (exists msg,
     JSDivergence.__init__ (PyInt 1) (Some "max"%string)
     = inl (TypeError msg))
  /\ (exists msg,
     JSDivergence.__init__ (PyBool true) (Some "max"%string)
     = inl (ValueError msg)).
Proof.
  split.
  - apply (proj1 (proj2 (init_validation (PyInt 1) (Some "max"%string)))).
    intros b. discriminate.
  - apply (proj2 (proj2 (init_validation (PyBool true) (Some "max"%string)))
             true eq_refl).
    intros [H | [H | [H | H]]]; discriminate.
Defined.

End Constructed.

(** ** Edge cases of the reduction *)

Section Edges.

Lemma div_zero_zero : Num.div (Fin 0) (of_Z 0) = NaN.
Proof.
  unfold Num.div, of_Z. destruct (Req_dec_T 0 0) as [_|ne]; [|now destruct ne].
  apply signed_inf_zero.
Qed.

Lemma div_one x : Num.div x (of_Z 1) = x.
Proof.
  unfold Num.div, of_Z. destruct x as [x| | |]; try reflexivity.
  - destruct (Req_dec_T 1 0); [lra|]. f_equal. field.
  - destruct (Rlt_dec 1 0); [lra|reflexivity].
  - destruct (Rlt_dec 1 0); [lra|reflexivity].
Qed.

Lemma update_empty p q lp d :
  shape p = [0%nat; d] -> shape q = [0%nat; d] ->
  _jsd_update p q lp = inr (mkTensor [0%nat] [], 0%nat).
Proof.
  intros Hp Hq. destruct p as [sp dp], q as [sq dq]. cbn in Hp, Hq. subst.
  unfold _jsd_update, _check_same_shape, ndim. cbn [shape].
  destruct (list_eq_dec Nat.eq_dec [0%nat; d] [0%nat; d]); [|contradiction].
  cbn [bind length Nat.eqb negb orb hd]. cbv iota.
  destruct lp; reflexivity.
Qed.

(** X6: a batch without samples is accepted; its "sum" is 0, its "mean" is
    0/0 = NaN and its "none" result is the empty vector.  A metric that was
    never updated computes the same "sum" and "mean". *)
Theorem no_samples (p q : Tensor) (lp : bool) (d : nat) :
  shape p = [0%nat; d] -> shape q = [0%nat; d] ->
  js_divergence p q lp (Some "sum"%string) = inr (mkTensor [] [Fin 0])
  /\ js_divergence p q lp (Some "mean"%string) = inr (mkTensor [] [NaN])
  /\ js_divergence p q lp (Some "none"%string) = inr (mkTensor [0%nat] [])
  /\ run_metric lp (Some "sum"%string) [] = inr (mkTensor [] [Fin 0])
  /\ run_metric lp (Some "mean"%string) [] = inr (mkTensor [] [NaN]).
Proof.
  intros Hp Hq. unfold js_divergence.
  rewrite (update_empty p q lp d Hp Hq). cbn [bind fst snd].
  unfold run_metric. cbn.
  unfold ret, _jsd_compute, tdiv_int, tsum, tmap. cbn.
  rewrite add_0_r. change (Num.sum []) with (Fin 0).
  rewrite div_zero_zero. repeat split; reflexivity.
Qed.

Lemma no_samples_witness :
  js_divergence (zeros [0; 3]%nat) (zeros [0; 3]%nat) true
    (Some "sum"%string) = inr (mkTensor [] [Fin 0])
  /\ js_divergence (zeros [0; 3]%nat) (zeros [0; 3]%nat) true
       (Some "mean"%string) = inr (mkTensor [] [NaN])
  /\ js_divergence (zeros [0; 3]%nat) (zeros [0; 3]%nat) true
       (Some "none"%string) = inr (mkTensor [0%nat] [])
  /\ run_metric true (Some "sum"%string) [] = inr (mkTensor [] [Fin 0])
  /\ run_metric true (Some "mean"%string) [] = inr (mkTensor [] [NaN]).
Proof.
  apply (no_samples (zeros [0; 3]%nat) (zeros [0; 3]%nat) true 3);
    reflexivity.
Defined.

(** X7: on a batch of one sample the "mean" and the "sum" reductions agree,
    whatever the entries (special values included) and also when the kernel
    rejects the input. *)
Theorem single_sample_mean_is_sum (p q : Tensor) (lp : bool) :
  hd 0%nat (shape p) = 1%nat ->
  js_divergence p q lp (Some "mean"%string)
  = js_divergence p q lp (Some "sum"%string).
Proof.
  intros H1. unfold js_divergence.
  destruct (_jsd_update p q lp) as [e|[m n]] eqn:E; [reflexivity|].
  destruct (jsd_update_inv _ _ _ _ _ E) as [d [Hp _]].
  rewrite Hp in H1. cbn in H1. subst n.
  cbn [bind fst snd]. unfold ret, _jsd_compute, tdiv_int, tsum, tmap. cbn.
  now rewrite div_one.
Qed.

Lemma single_sample_mean_is_sum_witness :
  js_divergence p_doc q_doc false (Some "mean"%string)
  = js_divergence p_doc q_doc false (Some "sum"%string).
Proof.
  apply (single_sample_mean_is_sum p_doc q_doc false). reflexivity.
Defined.

End Edges.

(** ** Values of the divergence *)

Section Values.

Import RealJSD.






Lemma zipWith_map_map {A B C A' B'} (f : A -> B -> C) (g : A' -> A)
  (h : B' -> B) a b :
  zipWith f (map g a) (map h b) = zipWith (fun x y => f (g x) (h y)) a b.
Proof.
  revert b; induction a as [|x a IH]; intros [|y b]; try reflexivity.
  cbn [map]. rewrite !zipWith_cons. now rewrite IH.
Qed.


Lemma zipWith_ext_in {A B C} (f g : A -> B -> C) a b :
  Forall (fun xy => f (fst xy) (snd xy) = g (fst xy) (snd xy)) (combine a b) ->
  zipWith f a b = zipWith g a b.
Proof.
  unfold zipWith. intros H. apply map_ext_in. intros xy Hin.
  rewrite Forall_forall in H. now apply H.
Qed.

















Lemma valid_row_pairs p q N d :
  shape p = [N; d] -> shape q = [N; d] -> wf p -> wf q ->
  valid_rows false p -> valid_rows false q ->
  Forall (fun rr => prob_row (fst rr) /\ prob_row (snd rr)
                    /\ length (fst rr) = length (snd rr))
         (combine (rows p) (rows q)).
Proof.
  intros Hp Hq Wp Wq Vp Vq. unfold valid_rows in *.
  pose proof (rows_2d_row_length p N d Hp Wp) as Lp.
  pose proof (rows_2d_row_length q N d Hq Wq) as Lq.
  rewrite Forall_forall in *. intros [rp rq] Hin. cbn [fst snd].
  pose proof (in_combine_l _ _ _ _ Hin) as Hinp.
  pose proof (in_combine_r _ _ _ _ Hin) as Hinq.
  split; [now apply Vp|]. split; [now apply Vq|].
  now rewrite (Lp _ Hinp), (Lq _ Hinq).
Qed.

(** *** Disjoint supports *)










(** *** Zero divergence *)








(** *** The log-probability path without normalization *)













End Values.

(** ** Merging instances, symmetry and the range of an accumulated mean *)

Section Merge.

Lemma rows_total_app b1 b2 :
  rows_total (b1 ++ b2) = (rows_total b1 + rows_total b2)%nat.
Proof.
  unfold rows_total. rewrite map_app.
  induction (map batch_rows b1) as [|n l IH]; cbn; [reflexivity|].
  rewrite IH. lia.
Qed.

(** X13: the state is additive across instances.  Two instances with the
    same settings, fed the batches [b1] and [b2] and merged as their state
    declarations say (sums added, lists concatenated), compute what one
    instance fed [b1] followed by [b2] computes. *)
Theorem merged_instances_equal_one (lp : bool) (r : option string) (d : nat)
  (b1 b2 : list (Tensor * Tensor)) :
  JSDivergence.py_in r JSDivergence.allowed_reduction = true ->
  Forall (batch_ok d) b1 -> Forall (batch_ok d) b2 ->
  (Z.of_nat (rows_total (b1 ++ b2)) < 2 ^ 63)%Z ->
  run_merged lp r b1 b2 = run_metric lp r (b1 ++ b2).
Proof.
  intros Hr H1 H2 Hb.
  assert (H12 : Forall (batch_ok d) (b1 ++ b2)) by (apply Forall_app; now split).
  rewrite (run_metric_closed_form lp r d _ Hr H12 Hb).
  rewrite rows_total_app in *. rewrite Nat2Z.inj_add in Hb.
  unfold run_merged.
  destruct (allowed_reduction_cases r Hr) as [-> | [-> | [-> | ->]]]; cbn.
  - rewrite (run_updates_aggregated lp _ d b1) by (auto; lia). cbn.
    rewrite (run_updates_aggregated lp _ d b2) by (auto; lia). cbn.
    unfold JSDivergence.compute, merge_states. cbn.
    rewrite !add_0_l, wrap64_small by lia.
    unfold _jsd_compute, tdiv_int, tsum, tadd, tzip, tmap. cbn.
    rewrite map_app, concat_app, sum_app, !add_0_r, Nat2Z.inj_add.
    reflexivity.
  - rewrite (run_updates_aggregated lp _ d b1) by (auto; lia). cbn.
    rewrite (run_updates_aggregated lp _ d b2) by (auto; lia). cbn.
    unfold JSDivergence.compute, merge_states. cbn.
    rewrite !add_0_l.
    unfold _jsd_compute, tsum, tadd, tzip. cbn.
    rewrite map_app, concat_app, sum_app, !add_0_r. reflexivity.
  - rewrite (run_updates_per_sample lp _ d b1) by auto. cbn.
    rewrite (run_updates_per_sample lp _ d b2) by auto. cbn.
    unfold JSDivergence.compute, merge_states. cbn.
    rewrite <- map_app, dim_zero_cat_measures, rows_total_app. reflexivity.
  - rewrite (run_updates_per_sample lp _ d b1) by auto. cbn.
    rewrite (run_updates_per_sample lp _ d b2) by auto. cbn.
    unfold JSDivergence.compute, merge_states. cbn.
    rewrite <- map_app, dim_zero_cat_measures, rows_total_app. reflexivity.
Qed.

Lemma merged_instances_equal_one_witness :
  run_merged false (Some "mean"%string)
    [(p_disjoint, q_disjoint)] [(p_same, p_same)]
  = run_metric false (Some "mean"%string)
      ([(p_disjoint, q_disjoint)] ++ [(p_same, p_same)]).
Proof.
  apply (merged_instances_equal_one false (Some "mean"%string) 2).
  - reflexivity.
  - exact (Forall_cons _ (Forall_inv batches_example_ok) (Forall_nil _)).
  - exact (Forall_inv_tail batches_example_ok).
  - now vm_compute.
Defined.

(** X14: the kernel is symmetric in its two arguments, so every reduction
    of the single-shot function and every update of the metric is. *)
Theorem kernel_symmetric (p q : Tensor) (lp : bool) (N d : nat) :
  shape p = [N; d] -> shape q = [N; d] -> wf p -> wf q ->
  _jsd_update p q lp = _jsd_update q p lp
  /\ (forall r, js_divergence p q lp r = js_divergence q p lp r)
  /\ (forall s, JSDivergence.log_prob s = lp ->
        JSDivergence.update s p q = JSDivergence.update s q p).
Proof.
  intros Hp Hq Wp Wq.
  assert (E : _jsd_update p q lp = _jsd_update q p lp).
  { rewrite (jsd_update_rows p q lp N d Hp Hq Wp Wq).
    rewrite (jsd_update_rows q p lp N d Hq Hp Wq Wp).
    unfold Spec.update. rewrite Hp, Hq. do 3 f_equal.
    apply zipWith_swap. intros x y. apply per_sample_sym. }
  split; [exact E|]. split.
  - intros r. unfold js_divergence. now rewrite E.
  - intros s <-. unfold JSDivergence.update. now rewrite E.
Qed.

Lemma kernel_symmetric_witness :
  _jsd_update p_mass q_zero true = _jsd_update q_zero p_mass true
  /\ (forall r, js_divergence p_mass q_zero true r
                = js_divergence q_zero p_mass true r)
  /\ (forall s, JSDivergence.log_prob s = true ->
        JSDivergence.update s p_mass q_zero
        = JSDivergence.update s q_zero p_mass).
Proof.
  apply (kernel_symmetric p_mass q_zero true 1 3);
    try reflexivity; solve_wf.
Defined.






End Merge.

(** ** Reordering samples and categories *)

Section Reordering.

Lemma sum_Permutation l l' : Permutation l l' -> Num.sum l = Num.sum l'.
Proof.
  induction 1 as [|x l l' _ IH|x y l|l l' l'' _ IH1 _ IH2].
  - reflexivity.
  - now rewrite !sum_cons, IH.
  - rewrite !sum_cons, !add_assoc. f_equal. apply add_comm.
  - now rewrite IH1.
Qed.

Lemma select_seq {A} (dflt : A) l : select dflt (seq 0 (length l)) l = l.
Proof.
  unfold select. induction l as [|x l IH]; [reflexivity|].
  cbn [length seq map nth]. f_equal.
  rewrite <- seq_shift, map_map. exact IH.
Qed.

Lemma select_Permutation {A} (dflt : A) idx l :
  Permutation idx (seq 0 (length l)) -> Permutation (select dflt idx l) l.
Proof.
  intros H. rewrite <- (select_seq dflt l) at 2.
  unfold select. now apply Permutation_map.
Qed.

Lemma select_length {A} (dflt : A) idx l n :
  Permutation idx (seq 0 n) -> length (select dflt idx l) = n.
Proof.
  intros H. unfold select. rewrite length_map.
  rewrite (Permutation_length H). apply length_seq.
Qed.

Lemma select_combine {A B} (da : A) (db : B) idx a b :
  length a = length b ->
  combine (select da idx a) (select db idx b)
  = select (da, db) idx (combine a b).
Proof.
  intros Hl. unfold select. induction idx as [|j idx IH]; [reflexivity|].
  cbn [map combine]. rewrite IH. f_equal. symmetry.
  now apply combine_nth.
Qed.

Lemma select_zipWith {A B C} (f : A -> B -> C) (da : A) (db : B) idx a b :
  length a = length b ->
  zipWith f (select da idx a) (select db idx b)
  = select (f da db) idx (zipWith f a b).
Proof.
  intros Hl. unfold zipWith. rewrite (select_combine da db idx a b Hl).
  unfold select. rewrite !map_map. apply map_ext. intros j.
  symmetry.
  exact (map_nth (fun xy => f (fst xy) (snd xy)) (combine a b) (da, db) j).
Qed.

Lemma select_default {A} (d1 d2 : A) idx l :
  Forall (fun j => (j < length l)%nat) idx ->
  select d1 idx l = select d2 idx l.
Proof.
  intros H. unfold select. apply map_ext_in. intros j Hj.
  rewrite Forall_forall in H. apply nth_indep. now apply H.
Qed.

Lemma perm_seq_bound idx n :
  Permutation idx (seq 0 n) -> Forall (fun j => (j < n)%nat) idx.
Proof.
  intros H. apply Forall_forall. intros j Hj.
  apply (Permutation_in _ H) in Hj. apply in_seq in Hj. lia.
Qed.

Lemma select_rows_uniform (rs : list (list num)) idx d :
  Forall (fun r => length r = d) rs ->
  Forall (fun j => (j < length rs)%nat) idx ->
  Forall (fun r => length r = d) (select [] idx rs).
Proof.
  intros Hr Hi. unfold select. apply Forall_map.
  eapply Forall_impl; [|exact Hi]. intros j Hj. cbv beta.
  rewrite Forall_forall in Hr. apply Hr. now apply nth_In.
Qed.

Lemma rows_permute_rows t N d idx :
  shape t = [N; d] -> wf t -> Permutation idx (seq 0 N) ->
  rows (permute_rows idx t) = select [] idx (rows t)
  /\ wf (permute_rows idx t).
Proof.
  intros H W HP.
  pose proof (rows_2d_length t N d H) as HN.
  assert (Hu : Forall (fun r => length r = d) (select [] idx (rows t))).
  { apply select_rows_uniform; [now apply rows_2d_row_length with N|].
    rewrite HN. now apply perm_seq_bound. }
  assert (Hl : length (select [] idx (rows t)) = N)
    by now apply select_length.
  split.
  - rewrite (rows_2d (permute_rows idx t) N d) by exact H.
    unfold permute_rows. cbn [data]. now apply chunks_concat.
  - split; [|exact (proj2 W)]. unfold permute_rows. cbn [data shape].
    rewrite (length_concat_uniform _ d Hu), Hl, H. cbn. lia.
Qed.

(** X16: reordering the samples of a batch reorders the per-sample
    divergences in the same way, and leaves the "sum" and the "mean"
    unchanged. *)
Theorem samples_reordered (p q : Tensor) (lp : bool) (N d : nat)
  (idx : list nat) :
  shape p = [N; d] -> shape q = [N; d] -> wf p -> wf q ->
  Permutation idx (seq 0 N) ->
  exists m,
    _jsd_update p q lp = inr (m, N)
    /\ _jsd_update (permute_rows idx p) (permute_rows idx q) lp
       = inr (mkTensor [N] (select (Fin 0) idx (data m)), N)
    /\ js_divergence (permute_rows idx p) (permute_rows idx q) lp
         (Some "sum"%string)
       = js_divergence p q lp (Some "sum"%string)
    /\ js_divergence (permute_rows idx p) (permute_rows idx q) lp
         (Some "mean"%string)
       = js_divergence p q lp (Some "mean"%string).
Proof.
  intros Hp Hq Wp Wq HP.
  destruct (rows_permute_rows p N d idx Hp Wp HP) as [Rp Wp'].
  destruct (rows_permute_rows q N d idx Hq Wq HP) as [Rq Wq'].
  pose proof (rows_2d_length p N d Hp) as Lp.
  pose proof (rows_2d_length q N d Hq) as Lq.
  set (M := zipWith (Spec.per_sample lp) (rows p) (rows q)).
  assert (LM : length M = N)
    by (unfold M; rewrite zipWith_length; lia).
  assert (E1 : _jsd_update p q lp = inr (mkTensor [N] M, N)).
  { rewrite (jsd_update_rows p q lp N d Hp Hq Wp Wq).
    unfold Spec.update. now rewrite Hp. }
  assert (E2 : _jsd_update (permute_rows idx p) (permute_rows idx q) lp
               = inr (mkTensor [N] (select (Fin 0) idx M), N)).
  { rewrite (jsd_update_rows (permute_rows idx p) (permute_rows idx q)
               lp N d Hp Hq Wp' Wq').
    unfold Spec.update. rewrite Rp, Rq.
    change (shape (permute_rows idx p)) with (shape p). rewrite Hp. cbn [hd].
    rewrite select_zipWith by lia. fold M.
    rewrite (select_default _ (Fin 0)); [reflexivity|].
    rewrite LM. now apply perm_seq_bound. }
  assert (ES : Num.sum (select (Fin 0) idx M) = Num.sum M).
  { apply sum_Permutation. apply select_Permutation. now rewrite LM. }
  exists (mkTensor [N] M). split; [exact E1|]. split; [exact E2|].
  unfold js_divergence. rewrite E1, E2. cbn [bind fst snd].
  remember (select (Fin 0) idx M) as M' eqn:EM.
  unfold ret, _jsd_compute, tdiv_int, tsum, tmap. cbn.
  unfold Num.sum in ES |- *. rewrite ES. split; reflexivity.
Qed.

Lemma samples_reordered_witness :
  exists m,
    _jsd_update p_same p_same false = inr (m, 2%nat)
    /\ _jsd_update (permute_rows [1; 0]%nat p_same)
         (permute_rows [1; 0]%nat p_same) false
       = inr (mkTensor [2%nat] (select (Fin 0) [1; 0]%nat (data m)), 2%nat)
    /\ js_divergence (permute_rows [1; 0]%nat p_same)
         (permute_rows [1; 0]%nat p_same) false (Some "sum"%string)
       = js_divergence p_same p_same false (Some "sum"%string)
    /\ js_divergence (permute_rows [1; 0]%nat p_same)
         (permute_rows [1; 0]%nat p_same) false (Some "mean"%string)
       = js_divergence p_same p_same false (Some "mean"%string).
Proof.
  apply (samples_reordered p_same p_same false 2 2 [1; 0]%nat);
    try reflexivity; try solve_wf.
  apply perm_swap.
Defined.

(** A per-sample measure is a sum over the positions of the two rows. *)
Lemma measure_log_terms a b :
  Spec.measure_log a b
  = Num.mul (Fin 0.5)
      (Num.add (Num.sum (map log_term1 (combine a b)))
               (Num.sum (map log_term2 (combine a b)))).
Proof.
  unfold Spec.measure_log. do 3 f_equal.
  - revert b; induction a as [|x a IH]; intros [|y b]; try reflexivity.
    cbn [map combine]. rewrite !zipWith_cons. cbn [map].
    rewrite !zipWith_cons. now rewrite IH.
  - revert b; induction a as [|x a IH]; intros [|y b]; try reflexivity.
    cbn [map combine]. rewrite !zipWith_cons. cbn [map].
    rewrite !zipWith_cons. now rewrite IH.
Qed.

Lemma measure_prob_terms a b :
  Spec.measure_prob a b
  = Num.mul (Fin 0.5)
      (Num.add
         (Num.sum (map (prob_term1 (Num.sum a) (Num.sum b)) (combine a b)))
         (Num.sum (map (prob_term2 (Num.sum a) (Num.sum b)) (combine a b)))).
Proof.
  unfold Spec.measure_prob, Spec.normalize, Spec.safe_xlogy.
  generalize (Num.sum a) as sa. generalize (Num.sum b) as sb. intros sb sa.
  do 3 f_equal.
  - revert b; induction a as [|x a IH]; intros [|y b]; try reflexivity.
    cbn [map combine]. rewrite !zipWith_cons. cbn [map].
    rewrite !zipWith_cons. now rewrite IH.
  - revert b; induction a as [|x a IH]; intros [|y b]; try reflexivity.
    cbn [map combine]. rewrite !zipWith_cons. cbn [map].
    rewrite !zipWith_cons. now rewrite IH.
Qed.

Lemma per_sample_Permutation (lp : bool) a b a' b' :
  Permutation (combine a b) (combine a' b') ->
  Permutation a a' -> Permutation b b' ->
  Spec.per_sample lp a b = Spec.per_sample lp a' b'.
Proof.
  intros Hc Ha Hb. destruct lp; cbn [Spec.per_sample].
  - rewrite !measure_log_terms.
    rewrite (sum_Permutation _ _ (Permutation_map log_term1 Hc)).
    now rewrite (sum_Permutation _ _ (Permutation_map log_term2 Hc)).
  - rewrite !measure_prob_terms.
    rewrite (sum_Permutation _ _ Ha), (sum_Permutation _ _ Hb).
    rewrite (sum_Permutation _ _ (Permutation_map (prob_term1 _ _) Hc)).
    now rewrite (sum_Permutation _ _ (Permutation_map (prob_term2 _ _) Hc)).
Qed.

Lemma per_sample_select (lp : bool) idx a b d :
  length a = d -> length b = d -> Permutation idx (seq 0 d) ->
  Spec.per_sample lp (select (Fin 0) idx a) (select (Fin 0) idx b)
  = Spec.per_sample lp a b.
Proof.
  intros La Lb HP. apply per_sample_Permutation.
  - rewrite select_combine by lia. apply select_Permutation.
    rewrite length_combine, La, Lb, Nat.min_id. exact HP.
  - apply select_Permutation. now rewrite La.
  - apply select_Permutation. now rewrite Lb.
Qed.

Lemma rows_permute_cols t N d idx :
  shape t = [N; d] -> wf t -> Permutation idx (seq 0 d) ->
  rows (permute_cols idx t) = map (select (Fin 0) idx) (rows t)
  /\ wf (permute_cols idx t).
Proof.
  intros H W HP.
  assert (Hu : Forall (fun r => length r = d)
                      (map (select (Fin 0) idx) (rows t))).
  { apply Forall_map. apply Forall_forall. intros r _.
    now apply select_length. }
  assert (Hl : length (map (select (Fin 0) idx) (rows t)) = N)
    by (rewrite length_map; now apply rows_2d_length with d).
  split.
  - rewrite (rows_2d (permute_cols idx t) N d) by exact H.
    unfold permute_cols. cbn [data]. now apply chunks_concat.
  - split; [|exact (proj2 W)]. unfold permute_cols. cbn [data shape].
    rewrite (length_concat_uniform _ d Hu), Hl, H. cbn. lia.
Qed.

(** X17: the order of the categories does not matter: reordering the
    columns of [p] and of [q] in the same way leaves the result of the
    kernel unchanged, on both paths and for all entries. *)
Theorem categories_reordered (p q : Tensor) (lp : bool) (N d : nat)
  (idx : list nat) :
  shape p = [N; d] -> shape q = [N; d] -> wf p -> wf q ->
  Permutation idx (seq 0 d) ->
  _jsd_update (permute_cols idx p) (permute_cols idx q) lp
  = _jsd_update p q lp.
Proof.
  intros Hp Hq Wp Wq HP.
  destruct (rows_permute_cols p N d idx Hp Wp HP) as [Rp Wp'].
  destruct (rows_permute_cols q N d idx Hq Wq HP) as [Rq Wq'].
  rewrite (jsd_update_rows (permute_cols idx p) (permute_cols idx q)
             lp N d Hp Hq Wp' Wq').
  rewrite (jsd_update_rows p q lp N d Hp Hq Wp Wq).
  unfold Spec.update. rewrite Rp, Rq.
  change (shape (permute_cols idx p)) with (shape p).
  do 3 f_equal. rewrite zipWith_map_map.
  apply zipWith_ext_in.
  pose proof (rows_2d_row_length p N d Hp Wp) as Lp.
  pose proof (rows_2d_row_length q N d Hq Wq) as Lq.
  rewrite Forall_forall in *. intros [a b] Hin. cbn [fst snd].
  apply per_sample_select with d.
  - apply Lp. exact (in_combine_l _ _ _ _ Hin).
  - apply Lq. exact (in_combine_r _ _ _ _ Hin).
  - exact HP.
Qed.

Lemma categories_reordered_witness :
  _jsd_update (permute_cols [2; 0; 1]%nat p_mass)
    (permute_cols [2; 0; 1]%nat q_zero) false
  = _jsd_update p_mass q_zero false.
Proof.
  apply (categories_reordered p_mass q_zero false 1 3 [2; 0; 1]%nat);
    try reflexivity; try solve_wf.
  change (Permutation (2 :: [0; 1])%nat ([0; 1] ++ 2 :: [])%nat).
  apply Permutation_cons_app. cbn. apply Permutation_refl.
Defined.

End Reordering.

(** ** A category without mass *)

Section Padding.

Lemma combine_app {A B} (a1 a2 : list A) (b1 b2 : list B) :
  length a1 = length b1 ->
  combine (a1 ++ a2) (b1 ++ b2) = combine a1 b1 ++ combine a2 b2.
Proof.
  revert b1; induction a1 as [|x a1 IH]; intros [|y b1] H;
    try discriminate; [reflexivity|].
  cbn. f_equal. apply IH. now injection H.
Qed.

Lemma sum_snoc_zero l : Num.sum (l ++ [Fin 0]) = Num.sum l.
Proof. now rewrite sum_app, sum_singleton, add_0_r. Qed.

Lemma prob_term_zero s s' :
  s <> 0 ->
  prob_term1 (Fin s) s' (Fin 0, Fin 0) = Fin 0.
Proof.
  intros Hs. unfold prob_term1. cbn [fst snd]. cbv zeta.
  rewrite div_fin by exact Hs. unfold safe_xlogy_elem.
  rewrite eq_zero_true; [reflexivity|]. unfold Rdiv. apply Rmult_0_l.
Qed.

Lemma prob_term2_zero s s' :
  s' <> 0 ->
  prob_term2 s (Fin s') (Fin 0, Fin 0) = Fin 0.
Proof.
  intros Hs. unfold prob_term2. cbn [fst snd]. cbv zeta.
  rewrite (div_fin 0 s') by exact Hs. unfold safe_xlogy_elem.
  rewrite eq_zero_true; [reflexivity|]. unfold Rdiv. apply Rmult_0_l.
Qed.

Lemma measure_prob_pad a b :
  prob_row a -> prob_row b -> length a = length b ->
  Spec.measure_prob (a ++ [Fin 0]) (b ++ [Fin 0]) = Spec.measure_prob a b.
Proof.
  intros [_ Pa] [_ Pb] Hl. rewrite !measure_prob_terms.
  rewrite !sum_snoc_zero, combine_app by exact Hl.
  cbn [combine]. rewrite !map_app, !sum_app. cbn [map].
  rewrite !sum_singleton.
  destruct (Num.sum a) as [sa| | |]; try contradiction.
  destruct (Num.sum b) as [sb| | |]; try contradiction.
  cbn in Pa, Pb.
  rewrite prob_term_zero by lra. rewrite prob_term2_zero by lra.
  now rewrite !add_0_r.
Qed.

Lemma rows_pad_zero_col t N d :
  shape t = [N; d] -> wf t -> (Z.of_nat (S d) < 2 ^ 63)%Z ->
  shape (pad_zero_col t) = [N; S d]
  /\ rows (pad_zero_col t) = map (fun r => r ++ [Fin 0]) (rows t)
  /\ wf (pad_zero_col t).
Proof.
  intros H W Hd.
  assert (Hs : shape (pad_zero_col t) = [N; S d])
    by (unfold pad_zero_col; cbn [shape]; now rewrite H).
  assert (Hu : Forall (fun r => length r = S d)
                      (map (fun r => r ++ [Fin 0]) (rows t))).
  { apply Forall_map.
    eapply Forall_impl; [|exact (rows_2d_row_length t N d H W)].
    intros r Hr. cbv beta. rewrite length_app, Hr. cbn. lia. }
  assert (Hl : length (map (fun r : list num => r ++ [Fin 0]) (rows t)) = N)
    by (rewrite length_map; now apply rows_2d_length with d).
  split; [exact Hs|]. split.
  - rewrite (rows_2d _ N (S d) Hs). unfold pad_zero_col. cbn [data].
    now apply chunks_concat.
  - split.
    + rewrite Hs. unfold pad_zero_col. cbn [data].
      rewrite (length_concat_uniform _ (S d) Hu), Hl. cbn. lia.
    + rewrite Hs. destruct W as [_ Wd]. rewrite H in Wd.
      inversion Wd as [|? ? HN _]; subst.
      constructor; [exact HN|]. constructor; [exact Hd|constructor].
Qed.

(** X18: on the probability path a further category that has mass 0 in
    both [p] and [q] changes nothing: the guard of [_safe_xlogy] makes its
    terms 0 although the quotient there is 0/0. *)
Theorem zero_mass_category_is_ignored (p q : Tensor) (N d : nat) :
  shape p = [N; d] -> shape q = [N; d] -> wf p -> wf q ->
  valid_rows false p -> valid_rows false q ->
  (Z.of_nat (S d) < 2 ^ 63)%Z ->
  _jsd_update (pad_zero_col p) (pad_zero_col q) false
  = _jsd_update p q false.
Proof.
  intros Hp Hq Wp Wq Vp Vq Hd.
  destruct (rows_pad_zero_col p N d Hp Wp Hd) as [Sp [Rp Wp']].
  destruct (rows_pad_zero_col q N d Hq Wq Hd) as [Sq [Rq Wq']].
  rewrite (jsd_update_rows _ _ false N (S d) Sp Sq Wp' Wq').
  rewrite (jsd_update_rows p q false N d Hp Hq Wp Wq).
  unfold Spec.update. rewrite Rp, Rq, Sp, Hp. cbn [hd].
  do 3 f_equal. rewrite zipWith_map_map. apply zipWith_ext_in.
  eapply Forall_impl; [|exact (valid_row_pairs p q N d Hp Hq Wp Wq Vp Vq)].
  intros [a b] [Pa [Pb Hl]]. cbn [fst snd Spec.per_sample] in *.
  now apply measure_prob_pad.
Qed.

Lemma zero_mass_category_is_ignored_witness :
  _jsd_update (pad_zero_col p_mass) (pad_zero_col q_zero) false
  = _jsd_update p_mass q_zero false.
Proof.
  apply (zero_mass_category_is_ignored p_mass q_zero 1 3);
    try reflexivity; try solve_wf.
  - exact valid_p_mass.
  - exact valid_q_zero.
Defined.

End Padding.
